(** * gopen: the provider-driven web-URL builder (url.go)

    A shallow embedding of [url.go] (provider table, [pathJoin], the line
    anchors, [detectProvider], [buildWebURL], [convertToHTTPS]) and of the
    older five-argument [buildWebURL] of [main.go], together with the
    properties the specification states about them.

    Go strings are byte strings: they are modelled as [string], whose
    characters are the 256 values of [ascii]. *)

From Stdlib Require Import String Ascii List Bool Arith Lia Permutation.
Import ListNotations.

Local Open Scope list_scope.
Local Open Scope string_scope.

(** ** The functions of Go's [strings] package that the program calls *)

Module GoStrings.

(** [strings.HasPrefix(s, prefix)] *)
Fixpoint HasPrefix (s prefix : string) : bool :=
  match prefix, s with
  | EmptyString, _ => true
  | String _ _, EmptyString => false
  | String a prefix', String b s' => Ascii.eqb a b && HasPrefix s' prefix'
  end.

(** [s[n:]], for [n <= len(s)] *)
Fixpoint drop (n : nat) (s : string) : string :=
  match n, s with
  | O, _ => s
  | S _, EmptyString => EmptyString
  | S n', String _ s' => drop n' s'
  end.

(** [strings.TrimPrefix(s, prefix)] *)
Definition TrimPrefix (s prefix : string) : string :=
  if HasPrefix s prefix then drop (String.length prefix) s else s.

(** [strings.HasSuffix(s, suffix)]: some tail of [s] is [suffix]. *)
Fixpoint HasSuffix (s suffix : string) : bool :=
  String.eqb s suffix ||
  match s with
  | EmptyString => false
  | String _ s' => HasSuffix s' suffix
  end.

(** [strings.TrimSuffix(s, suffix)]: [s] without its tail [suffix], when
    it has that tail. *)
Fixpoint TrimSuffix (s suffix : string) : string :=
  if String.eqb s suffix then EmptyString
  else match s with
       | EmptyString => EmptyString
       | String c s' => String c (TrimSuffix s' suffix)
       end.

(** [strings.Contains(s, substr)]: [substr] is a prefix of some tail. *)
Fixpoint Contains (s substr : string) : bool :=
  HasPrefix s substr ||
  match s with
  | EmptyString => false
  | String _ s' => Contains s' substr
  end.

(** [strings.Cut(s, sep)]: the text before and after the first [sep];
    [None] when [sep] does not occur.  [SplitN] and [Replace] below cut
    at [strings.Index] in the same way. *)
Fixpoint Cut (s sep : string) : option (string * string) :=
  if HasPrefix s sep then Some (EmptyString, drop (String.length sep) s)
  else match s with
       | EmptyString => None
       | String c s' =>
           match Cut s' sep with
           | Some (before, after) => Some (String c before, after)
           | None => None
           end
       end.

(** The loop of [strings.genSplit] for a non-empty [sep]: cut at most
    [k] times, the last element is the unsplit remainder. *)
Fixpoint genSplit (k : nat) (s sep : string) : list string :=
  match k with
  | O => [s]
  | S k' =>
      match Cut s sep with
      | None => [s]
      | Some (before, after) => before :: genSplit k' after sep
      end
  end.

(** [strings.SplitN(s, sep, n)] for [n >= 0] and a non-empty [sep]. *)
Definition SplitN (s sep : string) (n : nat) : list string :=
  match n with
  | O => []
  | S k => genSplit k s sep
  end.

(** [strings.Split(s, sep)] for a non-empty [sep]: every occurrence
    splits; a string has fewer occurrences than bytes plus one. *)
Definition Split (s sep : string) : list string :=
  genSplit (String.length s) s sep.

(** [strings.Replace(s, old, new, n)] for [n >= 0] and a non-empty
    [old]: the first [n] occurrences are replaced. *)
Fixpoint Replace (s old new : string) (n : nat) : string :=
  match n with
  | O => s
  | S n' =>
      match Cut s old with
      | None => s
      | Some (before, after) => before ++ new ++ Replace after old new n'
      end
  end.

(** [strings.Join(elems, sep)] *)
Definition Join (elems : list string) (sep : string) : string :=
  String.concat sep elems.

(** [s == ""] *)
Definition isEmpty (s : string) : bool :=
  match s with
  | EmptyString => true
  | String _ _ => false
  end.

End GoStrings.
Import GoStrings.

(** ** url.go *)

(** [type provider struct]: how to build URLs for one hosting platform.
    A Go function value can be nil; [match] is the one field the table
    leaves unset (in [defaultProvider]), so it is the one modelled as
    optional.  Calling a nil function panics. *)
Record provider : Type := {
  match_     : option (string -> bool);
  treeURL    : string -> string -> string -> string;
  commitURL  : string -> string -> string -> string;
  lineAnchor : string -> string -> string
}.

(** [pathJoin(parts...)]: a slash-joined URL, skipping empty segments. *)
Definition pathJoin (parts : list string) : string :=
  Join (filter (fun p => negb (isEmpty p)) parts) "/".

(** Line anchor helpers. *)

Definition anchorLN (start end_ : string) : string :=
  if isEmpty start then ""
  else if isEmpty end_ then "#L" ++ start
  else "#L" ++ start ++ "-L" ++ end_.

Definition anchorGL (start end_ : string) : string :=
  if isEmpty start then ""
  else if isEmpty end_ then "#L" ++ start
  else "#L" ++ start ++ "-" ++ end_.

Definition anchorBB (start end_ : string) : string :=
  if isEmpty start then ""
  else if isEmpty end_ then "#lines-" ++ start
  else "#lines-" ++ start ++ ":" ++ end_.

(** [fmt.Sprintf] with [%s] verbs only is concatenation. *)
Definition anchorADO (start end_ : string) : string :=
  if isEmpty start then ""
  else
    let end_ := if isEmpty end_ then start else end_ in
    "&line=" ++ start ++ "&lineEnd=" ++ end_
      ++ "&lineStartColumn=1&lineEndColumn=1".

(** The line anchor of the CodeCommit entry: [func(_, _ string) string
    { return "" }]. *)
Definition anchorNone (_ _ : string) : string := "".

(** The entries of [var providers], in the order of the table. *)

Definition githubProvider : provider := {|
  match_ := Some (fun u => Contains u "github.com");
  treeURL := fun base ref path => pathJoin [base; "tree"; ref; path];
  commitURL := fun base hash path =>
    if isEmpty path then pathJoin [base; "commit"; hash]
    else pathJoin [base; "blob"; hash; path];
  lineAnchor := anchorLN
|}.

Definition gitlabProvider : provider := {|
  match_ := Some (fun u => Contains u "gitlab.com" || Contains u "gitlab");
  treeURL := fun base ref path => pathJoin [base; "-/tree"; ref; path];
  commitURL := fun base hash path =>
    if isEmpty path then pathJoin [base; "-/commit"; hash]
    else pathJoin [base; "-/blob"; hash; path];
  lineAnchor := anchorGL
|}.

Definition bitbucketProvider : provider := {|
  match_ := Some (fun u => Contains u "bitbucket.org");
  treeURL := fun base ref path => pathJoin [base; "src"; ref; path];
  commitURL := fun base hash path =>
    if isEmpty path then pathJoin [base; "commits"; hash]
    else pathJoin [base; "src"; hash; path];
  lineAnchor := anchorBB
|}.

Definition azureProvider : provider := {|
  match_ := Some (fun u =>
    Contains u "dev.azure.com" || Contains u "visualstudio.com");
  treeURL := fun base ref path =>
    if isEmpty path then base ++ "?version=GB" ++ ref
    else base ++ "?version=GB" ++ ref ++ "&path=/" ++ path;
  commitURL := fun base hash path =>
    if isEmpty path then pathJoin [base; "commit"; hash]
    else base ++ "?version=GC" ++ hash ++ "&path=/" ++ path;
  lineAnchor := anchorADO
|}.

Definition giteaProvider : provider := {|
  match_ := Some (fun u => Contains u "gitea");
  treeURL := fun base ref path => pathJoin [base; "src/branch"; ref; path];
  commitURL := fun base hash path =>
    if isEmpty path then pathJoin [base; "commit"; hash]
    else pathJoin [base; "src/commit"; hash; path];
  lineAnchor := anchorLN
|}.

Definition gogsProvider : provider := {|
  match_ := Some (fun u => Contains u "gogs");
  treeURL := fun base ref path => pathJoin [base; "src"; ref; path];
  commitURL := fun base hash path =>
    if isEmpty path then pathJoin [base; "commit"; hash]
    else pathJoin [base; "src"; hash; path];
  lineAnchor := anchorLN
|}.

Definition codecommitProvider : provider := {|
  match_ := Some (fun u =>
    Contains u "console.aws.amazon.com" || Contains u "codecommit");
  treeURL := fun base ref path =>
    if isEmpty path then pathJoin [base; "browse/refs/heads"; ref; "--"] ++ "/"
    else pathJoin [base; "browse/refs/heads"; ref; "--"; path];
  commitURL := fun base hash path =>
    if isEmpty path then pathJoin [base; "commit"; hash]
    else pathJoin [base; "browse"; hash; "--"; path];
  lineAnchor := anchorNone
|}.

Definition providers : list provider :=
  [ githubProvider; gitlabProvider; bitbucketProvider; azureProvider;
    giteaProvider; gogsProvider; codecommitProvider ].

(** [defaultProvider] uses GitHub-style URLs as a fallback; it has no
    [match]. *)
Definition defaultProvider : provider := {|
  match_ := None;
  treeURL := fun base ref path => pathJoin [base; "tree"; ref; path];
  commitURL := fun base hash path =>
    if isEmpty path then pathJoin [base; "commit"; hash]
    else pathJoin [base; "blob"; hash; path];
  lineAnchor := anchorLN
|}.

(** The package-level variables that [detectProvider] reads. *)
Record globals : Type := {
  g_providers       : list provider;
  g_defaultProvider : provider
}.

Definition initialGlobals : globals :=
  {| g_providers := providers; g_defaultProvider := defaultProvider |}.

(** The loop of [detectProvider] over a table [ps].  [None] is the panic
    of calling a nil [match]. *)
Fixpoint scanProviders (ps : list provider) (fallback : provider)
    (baseURL : string) : option provider :=
  match ps with
  | [] => Some fallback
  | p :: rest =>
      match match_ p with
      | None => None
      | Some m => if m baseURL then Some p
                  else scanProviders rest fallback baseURL
      end
  end.

Definition detectProviderIn (g : globals) (baseURL : string)
    : option provider :=
  scanProviders (g_providers g) (g_defaultProvider g) baseURL.

Definition detectProvider (baseURL : string) : option provider :=
  detectProviderIn initialGlobals baseURL.

(** [type repoContext struct] *)
Record repoContext : Type := {
  baseURL : string;
  branch  : string;
  relPath : string
}.

(** The first statement of [buildWebURL]: the line spec split into
    [(startLine, endLine)].  [parts[0]] always exists: [SplitN] with
    [n = 2] returns one or two elements. *)
Definition lineParts (lineNumber : string) : string * string :=
  if isEmpty lineNumber then ("", "")
  else
    let parts := SplitN lineNumber "-" 2 in
    (nth 0 parts "", nth 1 parts "").

Definition buildWebURLIn (g : globals) (ctx : repoContext)
    (lineNumber commitHash : string) : option string :=
  let '(startLine, endLine) := lineParts lineNumber in
  match detectProviderIn g (baseURL ctx) with
  | None => None
  | Some p =>
      let url :=
        if negb (isEmpty commitHash)
        then commitURL p (baseURL ctx) commitHash (relPath ctx)
        else treeURL p (baseURL ctx) (branch ctx) (relPath ctx) in
      Some (url ++ lineAnchor p startLine endLine)
  end.

Definition buildWebURL (ctx : repoContext) (lineNumber commitHash : string)
    : option string :=
  buildWebURLIn initialGlobals ctx lineNumber commitHash.

(** The byte that [.] of a pattern does not match. *)
Definition newline : string := String (ascii_of_nat 10) "".

(** The compiled pattern [^git@([^:]+):(.+)$] applied with
    [FindStringSubmatch]: the two submatches, or [None] for a nil result.
    After [git@], [[^:]+] takes the bytes up to the first colon (at least
    one), and [.+] has to reach the end of the text: it is not empty and
    holds no newline. *)
Definition sshRegex (url : string) : option (string * string) :=
  if HasPrefix url "git@" then
    match Cut (drop 4 url) ":" with
    | Some (host, path) =>
        if isEmpty host || isEmpty path || Contains path newline
        then None else Some (host, path)
    | None => None
    end
  else None.

Definition convertToHTTPS (url : string) : string :=
  let url := TrimSuffix url ".git" in
  match sshRegex url with
  | Some (host, path) => "https://" ++ host ++ "/" ++ path
  | None =>
      if HasPrefix url "ssh://" then
        let url := TrimPrefix url "ssh://" in
        let url := TrimPrefix url "git@" in
        let url := Replace url ":" "/" 1 in
        "https://" ++ url
      else if HasPrefix url "git://" then
        Replace url "git://" "https://" 1
      else url
  end.

(** ** main.go: the five-argument [buildWebURL]

    Each case of its [switch] builds [url] and then sets [lineFragment]
    from the same two tests on [startLine] and [endLine]; [fragment] is
    that assignment, given the case's two formats.  The CodeCommit case
    sets no fragment. *)

Module Legacy.

Definition buildWebURL
    (baseURL branch relPath lineNumber commitHash : string) : string :=
  let relPath :=
    if String.eqb relPath "." || isEmpty relPath then "" else relPath in
  let '(startLine, endLine) :=
    if isEmpty lineNumber then ("", "")
    else
      let parts := Split lineNumber "-" in
      (nth 0 parts "", nth 1 parts "") in
  let fragment (range single : string) :=
    if negb (isEmpty startLine) then
      if negb (isEmpty endLine) then range else single
    else "" in
  if Contains baseURL "github.com" then
    let url :=
      if negb (isEmpty commitHash) then
        if isEmpty relPath then baseURL ++ "/commit/" ++ commitHash
        else baseURL ++ "/blob/" ++ commitHash ++ "/" ++ relPath
      else if isEmpty relPath then baseURL ++ "/tree/" ++ branch
      else baseURL ++ "/tree/" ++ branch ++ "/" ++ relPath in
    url ++ fragment ("#L" ++ startLine ++ "-L" ++ endLine)
                     ("#L" ++ startLine)
  else if Contains baseURL "gitlab.com" || Contains baseURL "gitlab" then
    let url :=
      if negb (isEmpty commitHash) then
        if isEmpty relPath then baseURL ++ "/-/commit/" ++ commitHash
        else baseURL ++ "/-/blob/" ++ commitHash ++ "/" ++ relPath
      else if isEmpty relPath then baseURL ++ "/-/tree/" ++ branch
      else baseURL ++ "/-/tree/" ++ branch ++ "/" ++ relPath in
    url ++ fragment ("#L" ++ startLine ++ "-" ++ endLine)
                     ("#L" ++ startLine)
  else if Contains baseURL "bitbucket.org" then
    let url :=
      if negb (isEmpty commitHash) then
        if isEmpty relPath then baseURL ++ "/commits/" ++ commitHash
        else baseURL ++ "/src/" ++ commitHash ++ "/" ++ relPath
      else if isEmpty relPath then baseURL ++ "/src/" ++ branch
      else baseURL ++ "/src/" ++ branch ++ "/" ++ relPath in
    url ++ fragment ("#lines-" ++ startLine ++ ":" ++ endLine)
                     ("#lines-" ++ startLine)
  else if Contains baseURL "dev.azure.com"
          || Contains baseURL "visualstudio.com" then
    let url :=
      if negb (isEmpty commitHash) then
        if isEmpty relPath then baseURL ++ "/commit/" ++ commitHash
        else baseURL ++ "?version=GC" ++ commitHash ++ "&path=/" ++ relPath
      else if isEmpty relPath then baseURL ++ "?version=GB" ++ branch
      else baseURL ++ "?version=GB" ++ branch ++ "&path=/" ++ relPath in
    url ++ fragment
             ("&line=" ++ startLine ++ "&lineEnd=" ++ endLine
                ++ "&lineStartColumn=1&lineEndColumn=1")
             ("&line=" ++ startLine ++ "&lineEnd=" ++ startLine
                ++ "&lineStartColumn=1&lineEndColumn=1")
  else if Contains baseURL "gitea" then
    let url :=
      if negb (isEmpty commitHash) then
        if isEmpty relPath then baseURL ++ "/commit/" ++ commitHash
        else baseURL ++ "/src/commit/" ++ commitHash ++ "/" ++ relPath
      else if isEmpty relPath then baseURL ++ "/src/branch/" ++ branch
      else baseURL ++ "/src/branch/" ++ branch ++ "/" ++ relPath in
    url ++ fragment ("#L" ++ startLine ++ "-L" ++ endLine)
                     ("#L" ++ startLine)
  else if Contains baseURL "gogs" then
    let url :=
      if negb (isEmpty commitHash) then
        if isEmpty relPath then baseURL ++ "/commit/" ++ commitHash
        else baseURL ++ "/src/" ++ commitHash ++ "/" ++ relPath
      else if isEmpty relPath then baseURL ++ "/src/" ++ branch
      else baseURL ++ "/src/" ++ branch ++ "/" ++ relPath in
    url ++ fragment ("#L" ++ startLine ++ "-L" ++ endLine)
                     ("#L" ++ startLine)
  else if Contains baseURL "console.aws.amazon.com"
          || Contains baseURL "codecommit" then
    let url :=
      if negb (isEmpty commitHash) then
        if isEmpty relPath then baseURL ++ "/commit/" ++ commitHash
        else baseURL ++ "/browse/" ++ commitHash ++ "/--/" ++ relPath
      else if isEmpty relPath
      then baseURL ++ "/browse/refs/heads/" ++ branch ++ "/--/"
      else baseURL ++ "/browse/refs/heads/" ++ branch ++ "/--/" ++ relPath in
    url
  else
    let url :=
      if negb (isEmpty commitHash) then
        if isEmpty relPath then baseURL ++ "/commit/" ++ commitHash
        else baseURL ++ "/blob/" ++ commitHash ++ "/" ++ relPath
      else if isEmpty relPath then baseURL ++ "/tree/" ++ branch
      else baseURL ++ "/tree/" ++ branch ++ "/" ++ relPath in
    url ++ fragment ("#L" ++ startLine ++ "-L" ++ endLine)
                     ("#L" ++ startLine).

End Legacy.

(** ** Notions used in the statements *)

(** A descriptor's matcher is set and refuses, or accepts, a URL. *)
Definition rejects (u : string) (p : provider) : Prop :=
  exists m, match_ p = Some m /\ m u = false.

Definition accepts (u : string) (p : provider) : Prop :=
  exists m, match_ p = Some m /\ m u = true.

(** What a slash-joined URL starts with: the base and its slash, when
    there is a base. *)
Definition basePrefix (base : string) : string :=
  if isEmpty base then "" else base ++ "/".

(** The descriptors whose commit URLs part from their tree URLs right
    after the base. *)
Definition commitShaped : list provider :=
  [githubProvider; gitlabProvider; azureProvider; giteaProvider;
   defaultProvider].





(** The number of bytes [c] in [s]: [strings.Count] for one byte. *)
Fixpoint countByte (c : ascii) (s : string) : nat :=
  match s with
  | EmptyString => 0
  | String d s' => (if (c =? d)%char then 1 else 0) + countByte c s'
  end.

(** A context, for the tables of the tests. *)
Definition ctxOf (b br p : string) : repoContext :=
  {| baseURL := b; branch := br; relPath := p |}.

(** ** args.go *)

(** [type config struct] *)
Record config : Type := {
  version    : bool;
  remoteName : string;
  copy       : bool;
  line       : string;
  commit     : string;
  paths      : list string
}.

Definition setVersion (cfg : config) : config :=
  {| version := true; remoteName := remoteName cfg; copy := copy cfg;
     line := line cfg; commit := commit cfg; paths := paths cfg |}.

Definition setCopy (cfg : config) : config :=
  {| version := version cfg; remoteName := remoteName cfg; copy := true;
     line := line cfg; commit := commit cfg; paths := paths cfg |}.

Definition setRemote (cfg : config) (v : string) : config :=
  {| version := version cfg; remoteName := v; copy := copy cfg;
     line := line cfg; commit := commit cfg; paths := paths cfg |}.

Definition setLine (cfg : config) (v : string) : config :=
  {| version := version cfg; remoteName := remoteName cfg; copy := copy cfg;
     line := v; commit := commit cfg; paths := paths cfg |}.

Definition setCommit (cfg : config) (v : string) : config :=
  {| version := version cfg; remoteName := remoteName cfg; copy := copy cfg;
     line := line cfg; commit := v; paths := paths cfg |}.

(** [cfg.paths = append(cfg.paths, more...)] *)
Definition addPaths (cfg : config) (more : list string) : config :=
  {| version := version cfg; remoteName := remoteName cfg; copy := copy cfg;
     line := line cfg; commit := commit cfg;
     paths := (paths cfg ++ more)%list |}.

(** [len(arg) > 2 && arg[0] == '-' && arg[1] == c] *)
Definition attachedTo (c : ascii) (arg : string) : bool :=
  Nat.ltb 2 (String.length arg)
  && match String.get 0 arg, String.get 1 arg with
     | Some a, Some b => Ascii.eqb a "-" && Ascii.eqb b c
     | _, _ => false
     end.

(** The loop of [parseArgs] from the current argument on.  [nextVal] takes
    the argument that follows, and fails when there is none.  The result
    is the pair that [parseArgs] returns: the configuration so far and the
    error, if any. *)
Fixpoint parseLoop (cfg : config) (args : list string)
    : config * option string :=
  match args with
  | [] => (cfg, None)
  | arg :: rest =>
      let nextVal (set : config -> string -> config) :=
        match rest with
        | [] => (cfg, Some ("flag " ++ arg ++ " requires a value"))
        | v :: rest' => parseLoop (set cfg v) rest'
        end in
      if String.eqb arg "-v" || String.eqb arg "--version" then
        parseLoop (setVersion cfg) rest
      else if String.eqb arg "-c" || String.eqb arg "--copy" then
        parseLoop (setCopy cfg) rest
      else if String.eqb arg "-r" || String.eqb arg "--remote" then
        nextVal setRemote
      else if String.eqb arg "-l" || String.eqb arg "--line" then
        nextVal setLine
      else if String.eqb arg "--commit" then
        nextVal setCommit
      else if String.eqb arg "--" then
        (addPaths cfg rest, None)
      else if HasPrefix arg "--remote=" then
        parseLoop (setRemote cfg (drop (String.length "--remote=") arg)) rest
      else if HasPrefix arg "--line=" then
        parseLoop (setLine cfg (drop (String.length "--line=") arg)) rest
      else if HasPrefix arg "--commit=" then
        parseLoop (setCommit cfg (drop (String.length "--commit=") arg)) rest
      else if attachedTo "r" arg then
        parseLoop (setRemote cfg (drop 2 arg)) rest
      else if attachedTo "l" arg then
        parseLoop (setLine cfg (drop 2 arg)) rest
      else if HasPrefix arg "-" then
        (cfg, Some ("unknown flag: " ++ arg))
      else
        parseLoop (addPaths cfg [arg]) rest
  end.

(** [cfg := config{remoteName: "origin"}] *)
Definition initialConfig : config :=
  {| version := false; remoteName := "origin"; copy := false;
     line := ""; commit := ""; paths := [] |}.

Definition parseArgs (args : list string) : config * option string :=
  parseLoop initialConfig args.

(** ** main.go: [reorderArgs] *)

(** The loop of [reorderArgs]: the flags and the positional arguments it
    collects, each in the order met.  A flag that takes the argument after
    it does so when there is one and it does not start with a dash. *)
Fixpoint reorderLoop (args : list string) : list string * list string :=
  match args with
  | [] => ([], [])
  | arg :: rest =>
      let skip (fl : list string) :=
        let '(flags, positional) := reorderLoop rest in
        ((fl ++ flags)%list, positional) in
      let takeNext (fl : list string) :=
        match rest with
        | next :: rest' =>
            if negb (HasPrefix next "-") then
              let '(flags, positional) := reorderLoop rest' in
              ((fl ++ next :: flags)%list, positional)
            else skip fl
        | [] => skip fl
        end in
      if HasPrefix arg "--" then
        if Contains arg "=" then skip [arg]
        else if String.eqb arg "--line" || String.eqb arg "--remote"
                || String.eqb arg "--commit"
        then takeNext [arg]
        else skip [arg]
      else if HasPrefix arg "-" && Nat.ltb 1 (String.length arg) then
        if String.eqb arg "-c" || String.eqb arg "-v" then skip [arg]
        else if String.eqb (String.substring 1 1 arg) "l"
                || String.eqb (String.substring 1 1 arg) "r" then
          if Nat.ltb 2 (String.length arg)
          then skip ["-" ++ String.substring 1 1 arg; drop 2 arg]
          else takeNext [arg]
        else takeNext [arg]
      else
        let '(flags, positional) := reorderLoop rest in
        (flags, arg :: positional)
  end.

Definition reorderArgs (args : list string) : list string :=
  let '(flags, positional) := reorderLoop args in
  (flags ++ positional)%list.

(** ** The end of [getRepoContext]

    What [getRepoContext] returns once the git commands and
    [filepath.Rel] have succeeded, from their results. *)
Definition repoContextOf (remoteURL branchName rel : string) : repoContext :=
  {| baseURL := convertToHTTPS remoteURL;
     branch := branchName;
     relPath := if String.eqb rel "." then "" else rel |}.

(** ** Notions used in the statements about args.go and [reorderArgs] *)

(** The flags that take the next argument as their value, and those that
    take none. *)
Definition valueFlags : list string :=
  ["-r"; "--remote"; "-l"; "--line"; "--commit"].

Definition switchFlags : list string := ["-v"; "--version"; "-c"; "--copy"].

(** What [reorderArgs] does with one argument, by the tests of its loop:
    a flag kept as it is, which takes the next argument or not; a short
    flag with its value attached; a positional argument. *)
Inductive argKind : Type :=
| Flag (takesNext : bool)
| Attached
| Positional.

Definition classify (arg : string) : argKind :=
  if HasPrefix arg "--" then
    if Contains arg "=" then Flag false
    else if String.eqb arg "--line" || String.eqb arg "--remote"
            || String.eqb arg "--commit"
    then Flag true
    else Flag false
  else if HasPrefix arg "-" && Nat.ltb 1 (String.length arg) then
    if String.eqb arg "-c" || String.eqb arg "-v" then Flag false
    else if String.eqb (String.substring 1 1 arg) "l"
            || String.eqb (String.substring 1 1 arg) "r" then
      if Nat.ltb 2 (String.length arg) then Attached else Flag true
    else Flag true
  else Positional.

(** The two arguments that an attached flag is split into. *)
Definition splitAttached (arg : string) : list string :=
  match classify arg with
  | Attached => ["-" ++ String.substring 1 1 arg; drop 2 arg]
  | _ => [arg]
  end.

(** A list of flags, each followed or not by one argument that does not
    begin with a dash. *)
Fixpoint flagGroups (l : list string) : bool :=
  match l with
  | [] => true
  | f :: l' =>
      HasPrefix f "-"
      && match l' with
         | v :: l'' => if HasPrefix v "-" then flagGroups l' else flagGroups l''
         | [] => true
         end
  end.

(** ** The tables of the repository's tests, evaluated on the model *)

Module Tests.

Example convert_cases :
  map convertToHTTPS
    [ "git@github.com:user/repo.git";
      "git@gitlab.com:group/sub/repo.git";
      "ssh://git@github.com/user/repo.git";
      "git://github.com/user/repo.git";
      "https://github.com/user/repo";
      "https://github.com/user/repo.git" ]
  = [ "https://github.com/user/repo";
      "https://gitlab.com/group/sub/repo";
      "https://github.com/user/repo";
      "https://github.com/user/repo";
      "https://github.com/user/repo";
      "https://github.com/user/repo" ].
Proof. reflexivity. Qed.

Example pathJoin_cases :
  map pathJoin
    [ ["https://github.com/u/r"; "tree"; "main"; ""];
      ["base"; ""; "middle"; ""]; ["a"; "b"; "c"]; ["a"]; [""]; [""; ""] ]
  = [ "https://github.com/u/r/tree/main"; "base/middle"; "a/b/c"; "a";
      ""; "" ].
Proof. reflexivity. Qed.

Example build_cases :
  [ buildWebURL (ctxOf "https://github.com/user/repo" "main" "") "" "";
    buildWebURL (ctxOf "https://github.com/user/repo" "main" "main.go")
      "42-50" "";
    buildWebURL (ctxOf "https://github.com/user/repo" "main" "main.go")
      "10" "abc1234";
    buildWebURL (ctxOf "https://gitlab.com/user/repo" "main" "main.go")
      "42-50" "";
    buildWebURL (ctxOf "https://git.mycompany.com/gitlab/user/repo" "feat" "")
      "" "";
    buildWebURL (ctxOf "https://bitbucket.org/user/repo" "main" "main.go")
      "" "abc1234";
    buildWebURL (ctxOf "https://dev.azure.com/org/proj/_git/repo" "main"
                   "main.go") "42" "";
    buildWebURL (ctxOf "https://gitea.example.com/user/repo" "main" "main.go")
      "" "abc1234";
    buildWebURL (ctxOf "https://gogs.example.com/user/repo" "main" "") "" "";
    buildWebURL
      (ctxOf "https://console.aws.amazon.com/codesuite/codecommit/repositories/repo"
         "main" "main.go") "42" "";
    buildWebURL (ctxOf "https://custom.git.host/user/repo" "main" "")
      "" "abc1234" ]
  = map Some
  [ "https://github.com/user/repo/tree/main";
    "https://github.com/user/repo/tree/main/main.go#L42-L50";
    "https://github.com/user/repo/blob/abc1234/main.go#L10";
    "https://gitlab.com/user/repo/-/tree/main/main.go#L42-50";
    "https://git.mycompany.com/gitlab/user/repo/-/tree/feat";
    "https://bitbucket.org/user/repo/src/abc1234/main.go";
    "https://dev.azure.com/org/proj/_git/repo?version=GBmain&path=/main.go&line=42&lineEnd=42&lineStartColumn=1&lineEndColumn=1";
    "https://gitea.example.com/user/repo/src/commit/abc1234/main.go";
    "https://gogs.example.com/user/repo/src/main";
    "https://console.aws.amazon.com/codesuite/codecommit/repositories/repo/browse/refs/heads/main/--/main.go";
    "https://custom.git.host/user/repo/commit/abc1234" ].
Proof. vm_compute. reflexivity. Qed.

End Tests.

(** ** Facts about the string functions *)

Section StringFacts.

Lemma isEmpty_true (s : string) : isEmpty s = true <-> s = "".
Proof. destruct s; simpl; split; congruence. Qed.

Lemma isEmpty_false (s : string) : isEmpty s = false <-> s <> "".
Proof. destruct s; simpl; split; congruence. Qed.

Lemma app_assoc_s (a b c : string) : (a ++ b) ++ c = a ++ (b ++ c).
Proof. induction a as [|x a IH]; simpl; [reflexivity | now rewrite IH]. Qed.

Lemma app_empty_r (a : string) : a ++ "" = a.
Proof. induction a as [|x a IH]; simpl; [reflexivity | now rewrite IH]. Qed.

Lemma length_app_s (a b : string) :
  String.length (a ++ b) = String.length a + String.length b.
Proof. induction a as [|x a IH]; simpl; [reflexivity | now rewrite IH]. Qed.

Lemma app_inv_head_s (a x y : string) : a ++ x = a ++ y -> x = y.
Proof.
  induction a as [|c a IH]; simpl; intros H; [exact H|].
  injection H as H. auto.
Qed.

(** Two ways of cutting one string: one cut point comes first. *)
Lemma app_eq_app_s (a x b y : string) :
  a ++ x = b ++ y ->
  exists m, (a = b ++ m /\ y = m ++ x) \/ (b = a ++ m /\ x = m ++ y).
Proof.
  revert b. induction a as [|c a IH]; simpl; intros b H.
  - exists b. right. auto.
  - destruct b as [|d b]; simpl in H.
    + exists (String c a). left. auto.
    + injection H as -> H. destruct (IH _ H) as [m [[-> ->] | [-> ->]]];
        exists m; [left | right]; auto.
Qed.

Lemma HasPrefix_empty (s : string) : HasPrefix s "" = true.
Proof. now destruct s. Qed.

Lemma HasPrefix_char (s t : string) (c d : ascii) :
  HasPrefix (String d t) (String c s) = (c =? d)%char && HasPrefix t s.
Proof. reflexivity. Qed.

Lemma HasPrefix_app (p s : string) : HasPrefix (p ++ s) p = true.
Proof.
  induction p as [|c p IH]; simpl; [now destruct s|].
  now rewrite Ascii.eqb_refl, IH.
Qed.

Lemma drop_app (p s : string) : drop (String.length p) (p ++ s) = s.
Proof. induction p as [|c p IH]; simpl; [now destruct s | exact IH]. Qed.

Lemma HasPrefix_split (s p : string) :
  HasPrefix s p = true -> s = p ++ drop (String.length p) s.
Proof.
  revert s. induction p as [|c p IH]; intros s H; simpl in *.
  - reflexivity.
  - destruct s as [|d s]; [discriminate|].
    apply andb_true_iff in H as [Hc Hp].
    apply Ascii.eqb_eq in Hc as ->. f_equal. auto.
Qed.

Lemma HasPrefix_iff (s p : string) :
  HasPrefix s p = true <-> exists t, s = p ++ t.
Proof.
  split.
  - intros H. eexists. now apply HasPrefix_split.
  - intros [t ->]. apply HasPrefix_app.
Qed.

Lemma HasPrefix_app_l (s a b : string) :
  HasPrefix s (a ++ b) = true -> HasPrefix s a = true.
Proof.
  rewrite !HasPrefix_iff. intros [t ->]. exists (b ++ t).
  apply app_assoc_s.
Qed.

Lemma HasSuffix_iff (s suffix : string) :
  HasSuffix s suffix = true <-> exists pre, s = pre ++ suffix.
Proof.
  split.
  - induction s as [|c s IH]; cbn [HasSuffix]; intros H.
    + rewrite orb_false_r in H. apply String.eqb_eq in H. now exists "".
    + apply orb_true_iff in H as [H | H].
      * apply String.eqb_eq in H. now exists "".
      * destruct (IH H) as [pre ->]. now exists (String c pre).
  - intros [pre ->]. induction pre as [|c pre IH].
    + cbn [append]. destruct suffix; cbn [HasSuffix];
        now rewrite String.eqb_refl.
    + cbn [append HasSuffix]. rewrite IH. apply orb_true_r.
Qed.

Lemma HasSuffix_app (pre s suffix : string) :
  HasSuffix s suffix = true -> HasSuffix (pre ++ s) suffix = true.
Proof.
  rewrite !HasSuffix_iff. intros [q ->]. exists (pre ++ q).
  symmetry. apply app_assoc_s.
Qed.

(** A byte that the suffix does not hold shields what comes before it. *)
Lemma HasSuffix_after (a b suffix : string) (c : ascii) :
  Contains suffix (String c "") = false ->
  HasSuffix (a ++ String c b) suffix = HasSuffix b suffix.
Proof.
  intros Hc.
  assert (Hno : forall m t, suffix <> m ++ String c t).
  { intros m t ->. revert Hc. clear.
    induction m as [|d m IH]; cbn [append Contains].
    - now rewrite HasPrefix_char, Ascii.eqb_refl, HasPrefix_empty.
    - intros H. apply orb_false_iff in H as [_ H]. auto. }
  apply eq_true_iff_eq. split; intros H.
  - apply HasSuffix_iff in H as [pre H].
    apply app_eq_app_s in H as [m [[_ H] | [_ H]]].
    + now apply Hno in H.
    + destruct m as [|d m]; simpl in H.
      * symmetry in H. now apply (Hno "") in H.
      * injection H as _ ->. apply HasSuffix_iff. now exists m.
  - change (String c b) with (String c "" ++ b). rewrite <- app_assoc_s.
    now apply HasSuffix_app.
Qed.

Lemma TrimSuffix_has (s suffix : string) :
  HasSuffix s suffix = true -> s = TrimSuffix s suffix ++ suffix.
Proof.
  induction s as [|c s IH]; cbn [HasSuffix TrimSuffix]; intros H.
  - rewrite orb_false_r in H. rewrite H. now apply String.eqb_eq in H.
  - destruct (String.eqb_spec (String c s) suffix) as [E | _].
    + exact E.
    + simpl in H. simpl. f_equal. auto.
Qed.

Lemma TrimSuffix_hasnot (s suffix : string) :
  HasSuffix s suffix = false -> TrimSuffix s suffix = s.
Proof.
  induction s as [|c s IH]; cbn [HasSuffix TrimSuffix]; intros H.
  - now destruct (String.eqb "" suffix).
  - apply orb_false_iff in H as [-> H]. f_equal. auto.
Qed.

Lemma TrimSuffix_app (s suffix : string) :
  TrimSuffix (s ++ suffix) suffix = s.
Proof.
  induction s as [|c s IH]; cbn [append].
  - destruct suffix; cbn [TrimSuffix]; now rewrite String.eqb_refl.
  - cbn [TrimSuffix].
    destruct (String.eqb_spec (String c (s ++ suffix)) suffix) as [E | _].
    + exfalso. apply (f_equal String.length) in E. simpl in E.
      rewrite length_app_s in E. lia.
    + now rewrite IH.
Qed.

Lemma Contains_prefix (s a b : string) :
  Contains s (a ++ b) = true -> Contains s a = true.
Proof.
  induction s as [|c s IH]; cbn [Contains]; intros H;
    apply orb_true_iff in H as [H | H].
  - apply HasPrefix_app_l in H. now rewrite H.
  - discriminate.
  - apply HasPrefix_app_l in H. now rewrite H.
  - rewrite (IH H). apply orb_true_r.
Qed.

Lemma Contains_nonempty (s sub : string) :
  sub <> "" -> Contains s sub = true -> s <> "".
Proof. intros Hs H ->. destruct sub; [congruence | discriminate]. Qed.

Lemma Cut_Some (s sep a b : string) :
  Cut s sep = Some (a, b) -> s = a ++ sep ++ b.
Proof.
  revert a. induction s as [|c s IH]; cbn [Cut]; intros a.
  - destruct (HasPrefix "" sep) eqn:E; [|discriminate].
    intros [= <- <-]. now apply HasPrefix_split in E.
  - destruct (HasPrefix (String c s) sep) eqn:E.
    + intros [= <- <-]. now apply HasPrefix_split in E.
    + destruct (Cut s sep) as [[a' b']|]; [|discriminate].
      intros [= <- <-]. cbn [append]. f_equal. auto.
Qed.

Lemma Cut_None (s sep : string) :
  Cut s sep = None <-> Contains s sep = false.
Proof.
  induction s as [|c s IH]; cbn [Cut Contains].
  - destruct (HasPrefix "" sep); simpl; split; congruence.
  - destruct (HasPrefix (String c s) sep); simpl; [split; congruence|].
    rewrite <- IH. destruct (Cut s sep) as [[a b]|]; split; congruence.
Qed.

(** The first occurrence of a one-byte separator. *)
Lemma Cut_first (a b : string) (c : ascii) :
  Contains a (String c "") = false ->
  Cut (a ++ String c b) (String c "") = Some (a, b).
Proof.
  induction a as [|d a IH]; cbn [append Contains Cut]; intros H.
  - now rewrite HasPrefix_char, Ascii.eqb_refl, HasPrefix_empty.
  - apply orb_false_iff in H as [Hd H]. rewrite HasPrefix_char in *.
    rewrite HasPrefix_empty, andb_true_r in *.
    now rewrite Hd, (IH H).
Qed.

Lemma Cut_before (s a b : string) (c : ascii) :
  Cut s (String c "") = Some (a, b) -> Contains a (String c "") = false.
Proof.
  revert a. induction s as [|d s IH]; cbn [Cut]; intros a.
  - discriminate.
  - rewrite HasPrefix_char, HasPrefix_empty, andb_true_r.
    destruct (c =? d)%char eqn:E.
    + now intros [= <- <-].
    + destruct (Cut s (String c "")) as [[a' b']|] eqn:E'; [|discriminate].
      intros [= <- <-]. cbn [Contains].
      rewrite HasPrefix_char, HasPrefix_empty, andb_true_r, E. simpl. eauto.
Qed.

End StringFacts.

(** ** [pathJoin] on segments known to be empty or not *)

Section PathJoinFacts.

Lemma pathJoin_skip (rest : list string) :
  pathJoin ("" :: rest) = pathJoin rest.
Proof. reflexivity. Qed.

Lemma pathJoin_last (s : string) : pathJoin [s] = s.
Proof. now destruct s. Qed.

Lemma pathJoin_empty_iff (parts : list string) :
  pathJoin parts = "" <-> Forall (fun p => p = "") parts.
Proof.
  unfold pathJoin, Join. induction parts as [|p parts IH]; simpl.
  - split; auto.
  - destruct p as [|c p]; simpl.
    + rewrite IH. split; [auto | now inversion 1].
    + split; [|now inversion 1].
      destruct (filter _ parts); discriminate.
Qed.

(** A non-empty head segment is followed by a slash exactly when
    something non-empty follows. *)
Lemma pathJoin_cons (s : string) (rest : list string) :
  s <> "" ->
  pathJoin (s :: rest) =
    if isEmpty (pathJoin rest) then s else s ++ "/" ++ pathJoin rest.
Proof.
  intros Hs. destruct s as [|c s]; [congruence|].
  unfold pathJoin, Join. simpl filter.
  destruct (filter _ rest) as [|y ys] eqn:E; simpl; [reflexivity|].
  assert (Hy : y <> "").
  { assert (Hin : In y (filter (fun p => negb (isEmpty p)) rest))
      by (rewrite E; now left).
    apply filter_In in Hin as [_ Hin]. now destruct y. }
  destruct y as [|d y]; [congruence|]. now destruct ys.
Qed.

End PathJoinFacts.

(** Splits a goal on whether the listed strings are empty. *)
Ltac by_emptiness l :=
  match l with
  | tt => idtac
  | (?s, ?rest) => destruct s; by_emptiness rest
  end.

(** ** Line anchors *)

(** C5. Every line-anchor builder returns the empty string for an empty
    start, whatever the end; for a non-empty start and an empty end it
    returns the platform's single-line form; for both non-empty the
    platform's range form.  The CodeCommit anchor is empty in all three
    cases. *)
Theorem anchor_contract (start end_ : string) :
  (anchorLN "" end_ = "" /\ anchorGL "" end_ = "" /\ anchorBB "" end_ = ""
   /\ anchorADO "" end_ = "" /\ lineAnchor codecommitProvider "" end_ = "")
  /\ (start <> "" ->
      anchorLN start "" = "#L" ++ start
      /\ anchorGL start "" = "#L" ++ start
      /\ anchorBB start "" = "#lines-" ++ start
      /\ anchorADO start "" =
           "&line=" ++ start ++ "&lineEnd=" ++ start
             ++ "&lineStartColumn=1&lineEndColumn=1"
      /\ lineAnchor codecommitProvider start "" = "")
  /\ (start <> "" -> end_ <> "" ->
      anchorLN start end_ = "#L" ++ start ++ "-L" ++ end_
      /\ anchorGL start end_ = "#L" ++ start ++ "-" ++ end_
      /\ anchorBB start end_ = "#lines-" ++ start ++ ":" ++ end_
      /\ anchorADO start end_ =
           "&line=" ++ start ++ "&lineEnd=" ++ end_
             ++ "&lineStartColumn=1&lineEndColumn=1"
      /\ lineAnchor codecommitProvider start end_ = "").
Proof.
  split; [|split].
  - repeat split.
  - intros Hs. destruct start; [congruence|]. repeat split.
  - intros Hs He. by_emptiness (start, (end_, tt)); try congruence.
    repeat split.
Qed.

Lemma anchor_contract_witness :
  anchorBB "42" "" = "#lines-42"
  /\ anchorADO "42" "50" =
       "&line=42&lineEnd=50&lineStartColumn=1&lineEndColumn=1".
Proof.
  destruct (anchor_contract "42" "50") as (_ & Hsingle & Hrange).
  split.
  - apply Hsingle. discriminate.
  - apply Hrange; discriminate.
Defined.

(** ** The line spec *)

Lemma lineParts_no_dash (n : string) :
  Contains n "-" = false -> lineParts n = (n, "").
Proof.
  intros H. unfold lineParts. destruct (isEmpty n) eqn:E.
  - apply isEmpty_true in E. now subst.
  - unfold SplitN, genSplit. apply Cut_None in H. now rewrite H.
Qed.

Lemma lineParts_dash (s rest : string) :
  Contains s "-" = false -> lineParts (s ++ "-" ++ rest) = (s, rest).
Proof.
  intros H. unfold lineParts.
  replace (isEmpty (s ++ "-" ++ rest)) with false by now destruct s.
  unfold SplitN, genSplit. change ("-" ++ rest) with (String "-" rest).
  now rewrite (Cut_first s rest "-" H).
Qed.

(** C4, as stated, fails for the builder of main.go, which splits the
    line spec at every dash and keeps the second part only. *)
Lemma legacy_line_spec_keeps_second_part :
  Legacy.buildWebURL "https://github.com/user/repo" "main" "main.go"
    "1-2-3" ""
  = "https://github.com/user/repo/tree/main/main.go#L1-L2"
  /\ Legacy.buildWebURL "https://github.com/user/repo" "main" "main.go"
       "1-2-3" ""
     <> "https://github.com/user/repo/tree/main/main.go#L1-L2-3".
Proof. split; [reflexivity | discriminate]. Qed.

(** C4, amended. The [buildWebURL] of url.go splits the line spec on its
    first dash only: what follows that dash is the end line as it stands,
    further dashes included.  Every line spec that holds a dash parses in
    this way.  For ["1-2-3"] the start is ["1"], the end ["2-3"], and the
    GitHub-style anchor ["#L1-L2-3"]. *)
Theorem line_spec_first_dash_only (lineNumber s rest : string) :
  (Contains s "-" = false ->
   lineParts (s ++ "-" ++ rest) = (s, rest)
   /\ forall ctx commitHash p,
        detectProvider (baseURL ctx) = Some p ->
        exists url,
          buildWebURL ctx (s ++ "-" ++ rest) commitHash
          = Some (url ++ lineAnchor p s rest))
  /\ (Contains lineNumber "-" = true ->
      exists startLine endLine,
        lineNumber = startLine ++ "-" ++ endLine
        /\ Contains startLine "-" = false
        /\ lineParts lineNumber = (startLine, endLine))
  /\ lineParts "1-2-3" = ("1", "2-3")
  /\ buildWebURL
       {| baseURL := "https://github.com/user/repo"; branch := "main";
          relPath := "main.go" |} "1-2-3" ""
     = Some "https://github.com/user/repo/tree/main/main.go#L1-L2-3".
Proof.
  split; [|split; [|split; reflexivity]].
  - intros H. split; [now apply lineParts_dash|].
    intros ctx commitHash p Hp. unfold buildWebURL, buildWebURLIn.
    rewrite (lineParts_dash s rest H).
    fold (detectProvider (baseURL ctx)). rewrite Hp. eauto.
  - intros H. destruct (Cut lineNumber "-") as [[a b]|] eqn:E.
    + pose proof (Cut_before _ _ _ _ E) as Ha. apply Cut_Some in E.
      exists a, b. subst lineNumber. repeat split; [assumption|].
      now apply lineParts_dash.
    + apply Cut_None in E. congruence.
Qed.

Lemma line_spec_first_dash_only_witness :
  lineParts "42-50-60" = ("42", "50-60")
  /\ exists startLine endLine, lineParts "7-8-9" = (startLine, endLine).
Proof.
  destruct (line_spec_first_dash_only "7-8-9" "42" "50-60") as (H & H' & _).
  split.
  - apply H. reflexivity.
  - destruct H' as (a & b & _ & _ & Hab); [reflexivity|]. now exists a, b.
Defined.

(** ** Provider selection *)

Section Scan.

Variables (fallback : provider) (u : string).

(** On a table whose matchers are all set, the scan ends with the first
    entry that accepts, or with the fallback when every entry refuses. *)
Lemma scanProviders_first (ps : list provider) :
  Forall (fun p => match_ p <> None) ps ->
  exists p,
    scanProviders ps fallback u = Some p
    /\ ((exists pre post,
           ps = (pre ++ p :: post)%list
           /\ Forall (rejects u) pre /\ accepts u p)
        \/ (Forall (rejects u) ps /\ p = fallback)).
Proof.
  induction 1 as [|q ps Hq _ IH]; simpl.
  - exists fallback. split; [reflexivity|]. right. auto.
  - destruct (match_ q) as [m|] eqn:Em; [|congruence].
    destruct (m u) eqn:Eu.
    + exists q. split; [reflexivity|]. left. exists [], ps.
      repeat split; [constructor|]. now exists m.
    + assert (Hrej : rejects u q) by now exists m.
      destruct IH as (p & -> & [(pre & post & -> & Hpre & Hp) | [Hall ->]]).
      * exists p. split; [reflexivity|]. left.
        exists (q :: pre), post. repeat split; auto.
      * exists fallback. split; [reflexivity|]. right. auto.
Qed.

End Scan.

Lemma providers_matchers_set :
  Forall (fun p => match_ p <> None) providers.
Proof. repeat constructor; discriminate. Qed.

(** C6. [detectProvider] returns a descriptor for every base URL: the
    first entry of the table, in order, whose matcher accepts the URL, and
    the default descriptor when none accepts.  The default descriptor
    builds GitHub-style URLs: [tree/<ref>/<path>] for browsing,
    [commit/<hash>] for a commit at the root, [blob/<hash>/<path>] with a
    path, and the anchors [#L<n>] and [#L<n>-L<m>]. *)
Theorem detectProvider_first_match
    (u base ref hash path n m : string) :
  (exists p,
     detectProvider u = Some p
     /\ ((exists pre post,
            providers = (pre ++ p :: post)%list
            /\ Forall (rejects u) pre /\ accepts u p)
         \/ (Forall (rejects u) providers /\ p = defaultProvider)))
  /\ (base <> "" -> ref <> "" -> hash <> "" -> path <> "" ->
      n <> "" -> m <> "" ->
      treeURL defaultProvider base ref "" = base ++ "/tree/" ++ ref
      /\ treeURL defaultProvider base ref path
         = base ++ "/tree/" ++ ref ++ "/" ++ path
      /\ commitURL defaultProvider base hash "" = base ++ "/commit/" ++ hash
      /\ commitURL defaultProvider base hash path
         = base ++ "/blob/" ++ hash ++ "/" ++ path
      /\ lineAnchor defaultProvider n "" = "#L" ++ n
      /\ lineAnchor defaultProvider n m = "#L" ++ n ++ "-L" ++ m).
Proof.
  split.
  - apply (scanProviders_first defaultProvider u providers).
    exact providers_matchers_set.
  - intros Hbase Href Hhash Hpath Hn Hm.
    by_emptiness (base, (ref, (hash, (path, (n, (m, tt))))));
      try congruence.
    repeat split.
Qed.

Lemma detectProvider_first_match_witness :
  (exists p, detectProvider "https://custom.git.host/user/repo" = Some p)
  /\ commitURL defaultProvider "https://custom.git.host/user/repo"
       "abc1234" "main.go"
     = "https://custom.git.host/user/repo/blob/abc1234/main.go".
Proof.
  destruct (detectProvider_first_match
              "https://custom.git.host/user/repo"
              "https://custom.git.host/user/repo" "main" "abc1234"
              "main.go" "42" "50")
    as ((p & Hp & _) & Hshape).
  split; [now exists p|].
  apply Hshape; discriminate.
Defined.

(** Two descriptors that differ in one field are different. *)
Lemma provider_neq_anchor (p q : provider) (s e : string) :
  lineAnchor p s e <> lineAnchor q s e -> Some p <> Some q.
Proof. intros H E. injection E as ->. now apply H. Qed.


(** C3, as stated, fails: a base URL that holds [gitlab.com] and also
    [github.com] is taken by the GitHub entry, which comes first. *)
Lemma gitlab_com_url_routed_to_github :
  let u := "https://github.com/user/gitlab.com-mirror" in
  Contains u "gitlab.com" = true
  /\ detectProvider u = Some githubProvider
  /\ detectProvider u <> Some gitlabProvider.
Proof.
  repeat split.
  apply (provider_neq_anchor _ _ "1" "2"). discriminate.
Qed.

(** C3, amended. A base URL that holds [gitlab.com] and does not hold
    [github.com] is routed to the GitLab descriptor, whose anchor is
    [anchorGL]; one that also holds [github.com] is routed to the GitHub
    descriptor.  In neither case is the default descriptor returned. *)
Theorem gitlab_com_routing (u : string) :
  Contains u "gitlab.com" = true ->
  (Contains u "github.com" = false -> detectProvider u = Some gitlabProvider)
  /\ (Contains u "github.com" = true ->
      detectProvider u = Some githubProvider)
  /\ detectProvider u <> Some defaultProvider
  /\ lineAnchor gitlabProvider = anchorGL.
Proof.
  intros Hgl. unfold detectProvider, detectProviderIn. simpl.
  destruct (Contains u "github.com") eqn:Egh; rewrite ?Hgl; simpl.
  - repeat split; discriminate.
  - repeat split; discriminate.
Qed.

Lemma gitlab_com_routing_witness :
  detectProvider "https://gitlab.com/user/repo" = Some gitlabProvider.
Proof.
  destruct (gitlab_com_routing "https://gitlab.com/user/repo") as [H _];
    [reflexivity|].
  apply H. reflexivity.
Defined.

(** ** Root URLs *)

Section RootShape.

Lemma HasSuffix_last (a b : string) (c : ascii) :
  b <> "" ->
  HasSuffix (a ++ b) (String c "") = HasSuffix b (String c "").
Proof.
  intros Hb. apply eq_true_iff_eq. split; intros H.
  - apply HasSuffix_iff in H as [pre H].
    apply app_eq_app_s in H as [m [[_ H] | [_ H]]].
    + destruct m as [|d m]; simpl in H.
      * rewrite <- H. apply HasSuffix_iff. now exists "".
      * injection H as _ H. destruct m, b; simpl in H; congruence.
    + apply HasSuffix_iff. now exists m.
  - now apply HasSuffix_app.
Qed.

Lemma pathJoin_snoc_empty (parts : list string) :
  pathJoin (parts ++ [""])%list = pathJoin parts.
Proof.
  unfold pathJoin. rewrite filter_app. simpl. now rewrite app_nil_r.
Qed.

(** A path appended to segments of which one is not empty. *)
Lemma pathJoin_snoc (parts : list string) (path : string) :
  pathJoin parts <> "" -> path <> "" ->
  pathJoin (parts ++ [path])%list = pathJoin parts ++ "/" ++ path.
Proof.
  intros Hparts Hpath. induction parts as [|s parts IH].
  - now contradiction Hparts.
  - destruct s as [|c s].
    + simpl app. rewrite !pathJoin_skip in *. auto.
    + simpl app. rewrite !pathJoin_cons by discriminate.
      destruct (isEmpty (pathJoin parts)) eqn:E.
      * apply isEmpty_true in E. apply pathJoin_empty_iff in E.
        assert (E' : pathJoin (parts ++ [path])%list = path).
        { clear -E Hpath. induction E as [|x l -> _ IHl]; simpl.
          - apply pathJoin_last.
          - now rewrite pathJoin_skip. }
        rewrite E'. now destruct path.
      * apply isEmpty_false in E. rewrite (IH E).
        replace (isEmpty (pathJoin parts ++ "/" ++ path)) with false
          by (now destruct (pathJoin parts)).
        now rewrite !app_assoc_s.
Qed.

(** The root URL of a slash-joined tree builder ends with the ref, or
    with the fixed segment when the ref is empty. *)
Lemma pathJoin_root_no_slash (base seg ref : string) :
  seg <> "" -> HasSuffix seg "/" = false -> HasSuffix ref "/" = false ->
  HasSuffix (pathJoin [base; seg; ref; ""]) "/" = false.
Proof.
  intros Hseg Hs Hr.
  change [base; seg; ref; ""] with ([base; seg; ref] ++ [""])%list.
  rewrite pathJoin_snoc_empty.
  destruct ref as [|r ref].
  - change [base; seg; ""] with ([base; seg] ++ [""])%list.
    rewrite pathJoin_snoc_empty.
    destruct base as [|b base].
    + now rewrite pathJoin_skip, pathJoin_last.
    + rewrite pathJoin_cons, pathJoin_last by discriminate.
      replace (isEmpty seg) with false by now destruct seg.
      rewrite <- app_assoc_s. now rewrite HasSuffix_last.
  - change [base; seg; String r ref]
      with ([base; seg] ++ [String r ref])%list.
    rewrite pathJoin_snoc; [|  | discriminate].
    + rewrite <- app_assoc_s. now rewrite HasSuffix_last.
    + intros E. apply pathJoin_empty_iff in E.
      inversion E as [|? ? _ E']. now inversion E'.
Qed.

Lemma pathJoin_root_then_path (base seg ref path : string) :
  seg <> "" -> path <> "" ->
  pathJoin [base; seg; ref; path]
  = pathJoin [base; seg; ref; ""] ++ "/" ++ path.
Proof.
  intros Hseg Hpath.
  change [base; seg; ref; ""] with ([base; seg; ref] ++ [""])%list.
  rewrite pathJoin_snoc_empty.
  change [base; seg; ref; path] with ([base; seg; ref] ++ [path])%list.
  apply pathJoin_snoc; [|assumption].
  intros E. apply pathJoin_empty_iff in E.
  inversion E as [|? ? _ E']. now inversion E'.
Qed.

End RootShape.

(** C1, as stated, fails: the CodeCommit descriptor is one of the
    descriptors, and its root URL ends with a slash. *)
Lemma codecommit_root_keeps_slash :
  let base :=
    "https://console.aws.amazon.com/codesuite/codecommit/repositories/repo" in
  In codecommitProvider (providers ++ [defaultProvider])%list
  /\ treeURL codecommitProvider base "main" ""
     = "https://console.aws.amazon.com/codesuite/codecommit/repositories/repo/browse/refs/heads/main/--/"
  /\ HasSuffix (treeURL codecommitProvider base "main" "") "/" = true.
Proof. simpl. repeat split. tauto. Qed.

(** C1, amended. For every descriptor other than CodeCommit's, the default
    included, and a ref that does not itself end with a slash, the tree URL
    for an empty path does not end with a slash, and the URL for a path is
    that root URL followed by the separator and the path: the separator is
    [&path=/] for the Azure DevOps descriptor and [/] for every other one,
    so the empty path leaves nothing behind.  The CodeCommit root URL ends
    with the slash that its URLs for a path continue from. *)
Theorem tree_root_shape (p : provider) (base ref path : string) :
  In p (providers ++ [defaultProvider])%list ->
  HasSuffix ref "/" = false ->
  path <> "" ->
  (p <> codecommitProvider ->
   HasSuffix (treeURL p base ref "") "/" = false
   /\ (p = azureProvider ->
       treeURL p base ref path = treeURL p base ref "" ++ "&path=/" ++ path)
   /\ (p <> azureProvider ->
       treeURL p base ref path = treeURL p base ref "" ++ "/" ++ path))
  /\ (p = codecommitProvider ->
      HasSuffix (treeURL p base ref "") "/" = true
      /\ treeURL p base ref path = treeURL p base ref "" ++ path).
Proof.
  intros Hin Href Hpath.
  assert (Hroot : forall seg, seg <> "" -> HasSuffix seg "/" = false ->
    HasSuffix (pathJoin [base; seg; ref; ""]) "/" = false).
  { intros seg Hseg Hs. now apply pathJoin_root_no_slash. }
  assert (Hfile : forall seg, seg <> "" ->
    pathJoin [base; seg; ref; path]
    = pathJoin [base; seg; ref; ""] ++ "/" ++ path).
  { intros seg Hseg. now apply pathJoin_root_then_path. }
  assert (Hdiff : forall q r : provider,
    lineAnchor q "1" "" <> lineAnchor r "1" "" -> q = r -> False).
  { intros q r Hq ->. now apply Hq. }
  simpl in Hin.
  destruct Hin as [<- | [<- | [<- | [<- | [<- | [<- | [<- | [<- | []]]]]]]]];
    (split; [intros Hne | intros Heq]);
    try (exfalso; revert Heq; apply Hdiff; discriminate);
    try solve
      [ split; [apply Hroot; [discriminate | reflexivity]|];
        split; [intros Haz; exfalso; revert Haz; apply Hdiff; discriminate|];
        intros _; apply Hfile; discriminate ].
  - (* Azure DevOps *)
    cbn [treeURL azureProvider isEmpty].
    replace (isEmpty path) with false by now destruct path.
    split; [|split].
    + destruct ref as [|r ref].
      * now rewrite HasSuffix_last.
      * rewrite <- app_assoc_s. now rewrite HasSuffix_last.
    + intros _. now rewrite !app_assoc_s.
    + intros Hnaz. now contradiction Hnaz.
  - now contradiction Hne.
  - (* CodeCommit *)
    cbn [treeURL codecommitProvider isEmpty].
    replace (isEmpty path) with false by now destruct path.
    split.
    + now apply HasSuffix_app.
    + change [base; "browse/refs/heads"; ref; "--"; path]
        with ([base; "browse/refs/heads"; ref; "--"] ++ [path])%list.
      rewrite pathJoin_snoc, !app_assoc_s; [reflexivity | | assumption].
      intros E. apply pathJoin_empty_iff in E.
      inversion E as [|? ? _ E']. now inversion E'.
Qed.

Lemma tree_root_shape_witness :
  HasSuffix (treeURL gitlabProvider "https://gitlab.com/user/repo" "main" "")
    "/" = false
  /\ treeURL azureProvider "https://dev.azure.com/o/p/_git/r" "main" "main.go"
     = treeURL azureProvider "https://dev.azure.com/o/p/_git/r" "main" ""
       ++ "&path=/" ++ "main.go"
  /\ HasSuffix
       (treeURL codecommitProvider "https://codecommit.example/repo" "main" "")
       "/" = true.
Proof.
  split; [|split].
  - destruct (tree_root_shape gitlabProvider "https://gitlab.com/user/repo"
                "main" "main.go") as [H _].
    + simpl. tauto.
    + reflexivity.
    + discriminate.
    + apply H. intros E.
      apply (f_equal (fun q => lineAnchor q "1" "")) in E. discriminate E.
  - destruct (tree_root_shape azureProvider
                "https://dev.azure.com/o/p/_git/r" "main" "main.go")
      as [H _].
    + simpl. tauto.
    + reflexivity.
    + discriminate.
    + destruct H as (_ & H & _).
      * intros E. apply (f_equal (fun q => lineAnchor q "1" "")) in E.
        discriminate E.
      * apply H. reflexivity.
  - destruct (tree_root_shape codecommitProvider
                "https://codecommit.example/repo" "main" "main.go")
      as [_ H].
    + simpl. tauto.
    + reflexivity.
    + discriminate.
    + apply H. reflexivity.
Defined.

(** ** Commit URLs *)

Section CommitShape.

Lemma pathJoin_base_seg (base seg : string) (rest : list string) :
  seg <> "" ->
  exists t, pathJoin (base :: seg :: rest) = basePrefix base ++ seg ++ t.
Proof.
  intros Hseg.
  assert (Hs : exists t, pathJoin (seg :: rest) = seg ++ t).
  { rewrite pathJoin_cons by assumption.
    destruct (isEmpty (pathJoin rest)); eexists;
      [symmetry; apply app_empty_r | reflexivity]. }
  destruct Hs as [t Ht]. exists t. unfold basePrefix.
  destruct base as [|b base].
  - now rewrite pathJoin_skip.
  - rewrite pathJoin_cons by discriminate. rewrite Ht.
    replace (isEmpty (seg ++ t)) with false by now destruct seg.
    cbn [isEmpty]. now rewrite !app_assoc_s.
Qed.

(** Slash-joined URLs on one base whose first segments part ways are
    different URLs. *)
Lemma pathJoin_segs_differ (base seg1 seg2 : string) (r1 r2 : list string) :
  seg1 <> "" -> seg2 <> "" ->
  (forall t1 t2, seg1 ++ t1 <> seg2 ++ t2) ->
  pathJoin (base :: seg1 :: r1) <> pathJoin (base :: seg2 :: r2).
Proof.
  intros H1 H2 Hd E.
  destruct (pathJoin_base_seg base seg1 r1 H1) as [t1 E1].
  destruct (pathJoin_base_seg base seg2 r2 H2) as [t2 E2].
  rewrite E1, E2 in E. apply app_inv_head_s in E. now apply (Hd t1 t2).
Qed.

Lemma commit_url_not_tree_url (p : provider)
    (base hash path ref path' : string) :
  In p commitShaped ->
  commitURL p base hash path <> treeURL p base ref path'.
Proof.
  intros Hin. simpl in Hin.
  destruct Hin as [<- | [<- | [<- | [<- | [<- | []]]]]];
    cbn [commitURL treeURL githubProvider gitlabProvider azureProvider
           giteaProvider defaultProvider];
    try (destruct (isEmpty path); apply pathJoin_segs_differ;
         discriminate).
  (* Azure DevOps *)
  destruct (isEmpty path), (isEmpty path').
  - destruct (pathJoin_base_seg base "commit" [hash]) as [t ->];
      [discriminate|].
    unfold basePrefix. destruct base; [discriminate|].
    cbn [isEmpty]. rewrite app_assoc_s. intros E.
    apply app_inv_head_s in E. discriminate E.
  - destruct (pathJoin_base_seg base "commit" [hash]) as [t ->];
      [discriminate|].
    unfold basePrefix. destruct base; [discriminate|].
    cbn [isEmpty]. rewrite app_assoc_s. intros E.
    apply app_inv_head_s in E. discriminate E.
  - intros E. apply app_inv_head_s in E. discriminate E.
  - intros E. apply app_inv_head_s in E. discriminate E.
Qed.

End CommitShape.

Section CommitAgainstTree.

Lemma pathJoin_seg_head (seg : string) (rest : list string) :
  seg <> "" -> exists t, pathJoin (seg :: rest) = seg ++ t.
Proof.
  intros Hseg. rewrite pathJoin_cons by assumption.
  destruct (isEmpty (pathJoin rest)); eexists;
    [symmetry; apply app_empty_r | reflexivity].
Qed.

(** A commit page is no tree URL of the same base, for any descriptor. *)
Lemma commit_root_not_tree_url (p : provider) (base hash ref path : string) :
  In p (providers ++ [defaultProvider])%list ->
  commitURL p base hash "" <> treeURL p base ref path.
Proof.
  simpl. intros Hin.
  destruct Hin as [<- | [<- | [<- | [<- | [<- | [<- | [<- | [<- | []]]]]]]]];
    try (apply commit_url_not_tree_url; simpl; tauto);
    cbn [commitURL treeURL bitbucketProvider gogsProvider codecommitProvider
           isEmpty];
    try (apply pathJoin_segs_differ; discriminate).
  destruct (isEmpty path); [|apply pathJoin_segs_differ; discriminate].
  destruct (pathJoin_base_seg base "commit" [hash]) as [t ->];
    [discriminate|].
  destruct (pathJoin_base_seg base "browse/refs/heads" [ref; "--"])
    as [t' ->]; [discriminate|].
  rewrite !app_assoc_s. intros E. apply app_inv_head_s in E. discriminate E.
Qed.

Lemma pathJoin_base_seg_rest (base seg : string) (rest : list string) :
  seg <> "" -> pathJoin rest <> "" ->
  pathJoin (base :: seg :: rest)
  = basePrefix base ++ seg ++ "/" ++ pathJoin rest.
Proof.
  intros Hseg Hrest. apply isEmpty_false in Hrest.
  assert (Hs : pathJoin (seg :: rest) = seg ++ "/" ++ pathJoin rest)
    by now rewrite pathJoin_cons, Hrest.
  unfold basePrefix. destruct base as [|b base].
  - now rewrite pathJoin_skip.
  - rewrite pathJoin_cons by discriminate. rewrite Hs.
    replace (isEmpty (seg ++ "/" ++ pathJoin rest)) with false
      by now destruct seg.
    cbn [isEmpty]. now rewrite !app_assoc_s.
Qed.

(** Text that is not [refs/heads], does not begin with [refs/heads/] and
    is followed by [/-] does not begin a text that begins with
    [refs/heads/]. *)
Lemma refs_heads_clash (hash R Z : string) :
  hash <> "refs/heads" ->
  HasPrefix hash "refs/heads/" = false ->
  hash ++ String "/" (String "-" R) <> "refs/heads/" ++ Z.
Proof.
  intros Hne Hp E. apply app_eq_app_s in E as [m [[E _] | [E E']]].
  - rewrite E, HasPrefix_app in Hp. discriminate.
  - destruct m as [|a m].
    + rewrite app_empty_r in E. subst hash. discriminate Hp.
    + cbn [append] in E'. injection E' as <- E'.
      repeat (destruct hash as [|? hash]; cbn [append] in E;
              [try discriminate E
              | first [discriminate E | injection E as <- E]]).
      * injection E as <-. discriminate E'.
      * now apply Hne.
Qed.

(** With a hash that is not [refs/heads] and does not begin with
    [refs/heads/], the CodeCommit URL of a file at a commit is no tree URL
    of the same base. *)
Lemma codecommit_file_not_tree_url (base hash path ref path' : string) :
  hash <> "" -> path <> "" ->
  hash <> "refs/heads" ->
  HasPrefix hash "refs/heads/" = false ->
  commitURL codecommitProvider base hash path
  <> treeURL codecommitProvider base ref path'.
Proof.
  intros Hh Hpa Hne Hp. cbn [commitURL treeURL codecommitProvider].
  replace (isEmpty path) with false by now destruct path.
  assert (Hl : pathJoin [base; "browse"; hash; "--"; path]
               = basePrefix base ++ "browse/"
                   ++ hash ++ String "/" (String "-" ("-/" ++ path))).
  { unfold basePrefix.
    by_emptiness (base, (hash, (path, tt))); try congruence;
      cbn; rewrite ?app_assoc_s; reflexivity. }
  assert (Hdashes : forall l, pathJoin (ref :: "--" :: l) <> "").
  { intros l E. apply pathJoin_empty_iff in E.
    inversion E as [|? ? _ E']. now inversion E'. }
  assert (Hr : exists Z,
             (if isEmpty path'
              then pathJoin [base; "browse/refs/heads"; ref; "--"] ++ "/"
              else pathJoin [base; "browse/refs/heads"; ref; "--"; path'])
             = basePrefix base ++ "browse/" ++ "refs/heads/" ++ Z).
  { destruct (isEmpty path').
    - rewrite pathJoin_base_seg_rest by (discriminate || apply Hdashes).
      exists (pathJoin [ref; "--"] ++ "/"). rewrite ?app_assoc_s.
      reflexivity.
    - rewrite pathJoin_base_seg_rest by (discriminate || apply Hdashes).
      exists (pathJoin [ref; "--"; path']). reflexivity. }
  destruct Hr as [Z ->]. rewrite Hl. intros E.
  do 2 apply app_inv_head_s in E. now apply refs_heads_clash in E.
Qed.

End CommitAgainstTree.

(** C2, as stated, fails.  A file below a directory named [tree] puts
    [tree/] into a GitHub commit URL; on Bitbucket a commit given by the
    name of the branch yields the URL that browsing the branch yields; and
    so does, on CodeCommit, a commit given as [refs/heads/] and the
    branch. *)
Lemma commit_url_with_branch_shape :
  buildWebURL
    {| baseURL := "https://github.com/user/repo"; branch := "main";
       relPath := "tree/main.go" |} "" "abc1234"
  = Some "https://github.com/user/repo/blob/abc1234/tree/main.go"
  /\ Contains "https://github.com/user/repo/blob/abc1234/tree/main.go"
       "tree/" = true
  /\ buildWebURL
       {| baseURL := "https://bitbucket.org/user/repo"; branch := "main";
          relPath := "main.go" |} "" "main"
     = Some "https://bitbucket.org/user/repo/src/main/main.go"
  /\ Contains "https://bitbucket.org/user/repo/src/main/main.go"
       "src/main" = true
  /\ buildWebURL
       {| baseURL := "https://codecommit.example/repo"; branch := "main";
          relPath := "main.go" |} "" "refs/heads/main"
     = buildWebURL
         {| baseURL := "https://codecommit.example/repo"; branch := "main";
            relPath := "main.go" |} "" ""
  /\ buildWebURL
       {| baseURL := "https://codecommit.example/repo"; branch := "main";
          relPath := "main.go" |} "" "refs/heads/main"
     = Some "https://codecommit.example/repo/browse/refs/heads/main/--/main.go".
Proof. repeat split. Qed.

(** C2, amended. With a non-empty commit hash, [buildWebURL] returns what
    the selected descriptor's commit-URL builder makes of the base URL, the
    hash and the path, followed by the descriptor's line anchor for the
    parsed line spec.  The branch does not enter the result.  The URL of a
    commit page (empty path) is no tree URL of the same base, for any
    descriptor, ref and path.  The URL of a file at a commit is none
    either for the GitHub, GitLab, Azure DevOps, Gitea and default
    descriptors, and for the CodeCommit descriptor when the hash is not
    [refs/heads] and does not begin with [refs/heads/].  For the Bitbucket
    and Gogs descriptors it is the tree URL of the same path at the ref
    that the hash spells. *)
Theorem commit_hash_selects_commit_builder
    (ctx : repoContext) (lineNumber commitHash : string) :
  commitHash <> "" ->
  exists p,
    detectProvider (baseURL ctx) = Some p
    /\ buildWebURL ctx lineNumber commitHash
       = Some (commitURL p (baseURL ctx) commitHash (relPath ctx)
               ++ lineAnchor p (fst (lineParts lineNumber))
                    (snd (lineParts lineNumber)))
    /\ (forall b,
          buildWebURL
            {| baseURL := baseURL ctx; branch := b; relPath := relPath ctx |}
            lineNumber commitHash
          = buildWebURL ctx lineNumber commitHash)
    /\ (relPath ctx = "" ->
        forall ref path,
          commitURL p (baseURL ctx) commitHash (relPath ctx)
          <> treeURL p (baseURL ctx) ref path)
    /\ (In p commitShaped ->
        forall ref path,
          commitURL p (baseURL ctx) commitHash (relPath ctx)
          <> treeURL p (baseURL ctx) ref path)
    /\ (p = codecommitProvider ->
        commitHash <> "refs/heads" ->
        HasPrefix commitHash "refs/heads/" = false ->
        forall ref path,
          commitURL p (baseURL ctx) commitHash (relPath ctx)
          <> treeURL p (baseURL ctx) ref path)
    /\ (p = bitbucketProvider \/ p = gogsProvider ->
        relPath ctx <> "" ->
        commitURL p (baseURL ctx) commitHash (relPath ctx)
        = treeURL p (baseURL ctx) commitHash (relPath ctx)).
Proof.
  intros Hh.
  destruct (scanProviders_first defaultProvider (baseURL ctx) providers
              providers_matchers_set) as (p & Hp & Hcase).
  change (detectProviderIn initialGlobals (baseURL ctx) = Some p) in Hp.
  assert (Hin : In p (providers ++ [defaultProvider])%list).
  { destruct Hcase as [(pre & post & E & _) | [_ ->]].
    - rewrite E. apply in_or_app. left. apply in_or_app. right. now left.
    - apply in_or_app. right. now left. }
  exists p. split; [exact Hp|].
  unfold buildWebURL, buildWebURLIn. cbn [baseURL relPath]. rewrite Hp.
  destruct (lineParts lineNumber) as [startLine endLine].
  replace (negb (isEmpty commitHash)) with true by now destruct commitHash.
  cbn [fst snd].
  split; [reflexivity|]. split; [reflexivity|].
  split; [|split; [|split]].
  - intros -> ref path. now apply commit_root_not_tree_url.
  - intros Hc ref path. now apply commit_url_not_tree_url.
  - intros -> Hne Hpre ref path. destruct (relPath ctx) as [|c rel] eqn:Er.
    + apply commit_root_not_tree_url. simpl. tauto.
    + apply codecommit_file_not_tree_url;
        [assumption | discriminate | assumption | assumption].
  - intros Hp' Hrel.
    destruct Hp' as [-> | ->];
      cbn [commitURL treeURL bitbucketProvider gogsProvider];
      now replace (isEmpty (relPath ctx)) with false
        by (now destruct (relPath ctx)).
Qed.

Lemma commit_hash_selects_commit_builder_witness :
  buildWebURL
    {| baseURL := "https://gitlab.com/user/repo"; branch := "main";
       relPath := "main.go" |} "42-50" "abc1234"
  = Some "https://gitlab.com/user/repo/-/blob/abc1234/main.go#L42-50".
Proof.
  destruct (commit_hash_selects_commit_builder
              {| baseURL := "https://gitlab.com/user/repo"; branch := "main";
                 relPath := "main.go" |} "42-50" "abc1234")
    as (p & Hp & Hurl & _); [discriminate|].
  rewrite Hurl. injection Hp as <-. reflexivity.
Defined.

(** ** Azure DevOps: the line suffix on a commit page *)

Lemma pathJoin_commit_root (base hash : string) :
  base <> "" -> hash <> "" ->
  pathJoin [base; "commit"; hash] = base ++ "/commit/" ++ hash.
Proof.
  intros Hb Hh. by_emptiness (base, (hash, tt)); try congruence.
  reflexivity.
Qed.

Lemma detectProvider_azure (base : string) :
  Contains base "dev.azure.com" || Contains base "visualstudio.com" = true ->
  Contains base "github.com" = false ->
  Contains base "gitlab" = false ->
  Contains base "bitbucket.org" = false ->
  detectProvider base = Some azureProvider.
Proof.
  intros Haz Hgh Hgl Hbb.
  assert (Hglc : Contains base "gitlab.com" = false).
  { destruct (Contains base "gitlab.com") eqn:E; [|reflexivity].
    apply (Contains_prefix base "gitlab" ".com") in E. congruence. }
  unfold detectProvider, detectProviderIn. simpl.
  now rewrite Hgh, Hglc, Hgl, Hbb, Haz.
Qed.

(** C9, as stated, fails.  On an Azure DevOps base URL a line spec that is
    a range has its end in [lineEnd]; and a base URL that holds
    [dev.azure.com] and also [gitlab] is not given the Azure suffix at
    all. *)
Lemma azure_commit_suffix_not_always_start :
  let base := "https://dev.azure.com/org/proj/_git/repo" in
  let base' := "https://dev.azure.com/org/gitlab-tools/_git/repo" in
  let claimed (b : string) :=
    Some (b ++ "/commit/" ++ "abc1234" ++ "&line=" ++ "42" ++ "&lineEnd="
            ++ "42" ++ "&lineStartColumn=1&lineEndColumn=1") in
  Contains base "dev.azure.com" = true
  /\ fst (lineParts "42-50") = "42"
  /\ buildWebURL {| baseURL := base; branch := "main"; relPath := "" |}
       "42-50" "abc1234"
     = Some "https://dev.azure.com/org/proj/_git/repo/commit/abc1234&line=42&lineEnd=50&lineStartColumn=1&lineEndColumn=1"
  /\ buildWebURL {| baseURL := base; branch := "main"; relPath := "" |}
       "42-50" "abc1234" <> claimed base
  /\ Contains base' "dev.azure.com" = true
  /\ buildWebURL {| baseURL := base'; branch := "main"; relPath := "" |}
       "42" "abc1234"
     = Some "https://dev.azure.com/org/gitlab-tools/_git/repo/-/commit/abc1234#L42"
  /\ buildWebURL {| baseURL := base'; branch := "main"; relPath := "" |}
       "42" "abc1234" <> claimed base'.
Proof. repeat split; discriminate. Qed.

(** C9, amended. For a base URL that the Azure DevOps descriptor is
    selected for (it holds [dev.azure.com] or [visualstudio.com], and none
    of [github.com], [gitlab], [bitbucket.org]), a non-empty commit hash,
    an empty path and a single-line spec [n], [buildWebURL] returns
    [base/commit/hash] followed by
    [&line=n&lineEnd=n&lineStartColumn=1&lineEndColumn=1]: the suffix
    begins with [&] on a URL built without [?].  For a range [n-m] the
    suffix carries [lineEnd=m]. *)
Theorem azure_commit_root_line_suffix (base br hash n m : string) :
  Contains base "dev.azure.com" || Contains base "visualstudio.com" = true ->
  Contains base "github.com" = false ->
  Contains base "gitlab" = false ->
  Contains base "bitbucket.org" = false ->
  hash <> "" -> n <> "" -> Contains n "-" = false ->
  buildWebURL {| baseURL := base; branch := br; relPath := "" |} n hash
  = Some (base ++ "/commit/" ++ hash ++ "&line=" ++ n ++ "&lineEnd=" ++ n
            ++ "&lineStartColumn=1&lineEndColumn=1")
  /\ (m <> "" ->
      buildWebURL {| baseURL := base; branch := br; relPath := "" |}
        (n ++ "-" ++ m) hash
      = Some (base ++ "/commit/" ++ hash ++ "&line=" ++ n ++ "&lineEnd=" ++ m
                ++ "&lineStartColumn=1&lineEndColumn=1")).
Proof.
  intros Haz Hgh Hgl Hbb Hh Hn Hdash.
  assert (Hb : base <> "").
  { intros ->. discriminate Haz. }
  pose proof (detectProvider_azure base Haz Hgh Hgl Hbb) as Hp.
  unfold detectProvider in Hp.
  unfold buildWebURL, buildWebURLIn. cbn [baseURL relPath branch].
  rewrite Hp, (lineParts_no_dash n Hdash), (lineParts_dash n m Hdash).
  replace (negb (isEmpty hash)) with true by now destruct hash.
  cbn [commitURL lineAnchor azureProvider isEmpty].
  rewrite (pathJoin_commit_root base hash Hb Hh). unfold anchorADO.
  replace (isEmpty n) with false by now destruct n.
  split.
  - now rewrite !app_assoc_s.
  - intros Hm. replace (isEmpty m) with false by now destruct m.
    now rewrite !app_assoc_s.
Qed.

Lemma azure_commit_root_line_suffix_witness :
  buildWebURL
    {| baseURL := "https://dev.azure.com/org/proj/_git/repo";
       branch := "main"; relPath := "" |} "42" "abc1234"
  = Some "https://dev.azure.com/org/proj/_git/repo/commit/abc1234&line=42&lineEnd=42&lineStartColumn=1&lineEndColumn=1".
Proof.
  refine (proj1 (azure_commit_root_line_suffix
                   "https://dev.azure.com/org/proj/_git/repo" "main"
                   "abc1234" "42" "50" _ _ _ _ _ _ _));
    first [reflexivity | discriminate].
Defined.

(** ** Repeated invocations *)

Section Runs.

Variables (fallback : provider) (url : string).





End Runs.




(** ** The five-argument builder of main.go against the provider table *)

Section LegacyFacts.

Lemma countByte_app (c : ascii) (a b : string) :
  countByte c (a ++ b) = countByte c a + countByte c b.
Proof. induction a as [|d a IH]; simpl; [reflexivity | rewrite IH; lia]. Qed.

Lemma countByte_zero (c : ascii) (s : string) :
  countByte c s = 0 -> Contains s (String c "") = false.
Proof.
  induction s as [|d s IH]; cbn [countByte Contains]; intros H.
  - reflexivity.
  - rewrite HasPrefix_char, HasPrefix_empty, andb_true_r.
    destruct (c =? d)%char; [discriminate|]. now apply IH.
Qed.

Lemma genSplit_no_sep (k : nat) (s sep : string) :
  Contains s sep = false -> genSplit k s sep = [s].
Proof.
  intros H. apply Cut_None in H. destruct k; simpl; [reflexivity|].
  now rewrite H.
Qed.

(** With at most one dash, splitting at every dash and splitting at the
    first give the same two parts. *)
Lemma split_parse_agree (lineNumber : string) :
  countByte "-" lineNumber <= 1 ->
  (if isEmpty lineNumber then ("", "")
   else (nth 0 (Split lineNumber "-") "", nth 1 (Split lineNumber "-") ""))
  = lineParts lineNumber.
Proof.
  intros Hc. unfold lineParts, Split, SplitN.
  destruct lineNumber as [|c s]; [reflexivity|].
  cbn [isEmpty String.length genSplit].
  destruct (Cut (String c s) "-") as [[a b]|] eqn:E; [|reflexivity].
  apply Cut_Some in E. rewrite E in Hc.
  rewrite !countByte_app in Hc. cbn [countByte] in Hc.
  rewrite Ascii.eqb_refl in Hc.
  assert (Hb : countByte "-" b = 0) by lia.
  apply countByte_zero in Hb.
  now rewrite (genSplit_no_sep _ b "-" Hb).
Qed.

Lemma legacy_normalize (relPath : string) :
  (if String.eqb relPath "." || isEmpty relPath then "" else relPath)
  = (if String.eqb relPath "." then "" else relPath).
Proof.
  destruct relPath as [|c s]; [reflexivity|].
  cbn [isEmpty]. now rewrite orb_false_r.
Qed.

End LegacyFacts.

(** C8, as stated, fails: on a line spec with two dashes the builder of
    main.go, which splits at every dash, keeps the second part only, and
    the builder of url.go keeps all that follows the first dash. *)
Lemma legacy_differs_on_second_dash :
  Legacy.buildWebURL "https://github.com/user/repo" "main" "main.go"
    "1-2-3" ""
  = "https://github.com/user/repo/tree/main/main.go#L1-L2"
  /\ buildWebURL
       {| baseURL := "https://github.com/user/repo"; branch := "main";
          relPath := "main.go" |} "1-2-3" ""
     = Some "https://github.com/user/repo/tree/main/main.go#L1-L2-3".
Proof. split; reflexivity. Qed.

(** Cases on the substring tests of the provider scan, then on which of
    the listed strings are empty. *)
Ltac urls_agree base l :=
  repeat match goal with
         | |- context [Contains base ?sub] => destruct (Contains base sub)
         end;
  by_emptiness l; try congruence;
  cbn; unfold anchorNone;
  repeat (first [rewrite app_assoc_s | rewrite app_empty_r]; cbn);
  reflexivity.

(** C8, amended. For a non-empty base URL, a non-empty branch when no
    commit hash is given, and a line spec with at most one dash, the
    builder of main.go and the builder of url.go (given the path with [.]
    turned into the empty path) return the same URL. *)
Theorem legacy_builder_agrees (base br path lineNumber commitHash : string) :
  base <> "" ->
  (commitHash = "" -> br <> "") ->
  countByte "-" lineNumber <= 1 ->
  buildWebURL
    {| baseURL := base; branch := br;
       relPath := if String.eqb path "." then "" else path |}
    lineNumber commitHash
  = Some (Legacy.buildWebURL base br path lineNumber commitHash).
Proof.
  intros Hbase Hbranch Hdash.
  unfold buildWebURL, buildWebURLIn, Legacy.buildWebURL.
  rewrite legacy_normalize, (split_parse_agree lineNumber Hdash).
  generalize (if String.eqb path "." then "" else path). intros r.
  destruct (lineParts lineNumber) as [s e].
  unfold detectProviderIn, initialGlobals, providers.
  cbn [baseURL branch relPath scanProviders
         g_providers g_defaultProvider match_ githubProvider gitlabProvider
         bitbucketProvider azureProvider giteaProvider gogsProvider
         codecommitProvider].
  destruct commitHash as [|h0 hash].
  - specialize (Hbranch eq_refl).
    urls_agree base (base, (br, (r, (s, (e, tt))))).
  - clear Hbranch.
    urls_agree base (base, (r, (s, (e, tt)))).
Qed.

Lemma legacy_builder_agrees_witness :
  buildWebURL
    {| baseURL := "https://gitea.example.com/user/repo"; branch := "main";
       relPath := "" |} "42-50" ""
  = Some (Legacy.buildWebURL "https://gitea.example.com/user/repo" "main"
            "." "42-50" "").
Proof.
  apply (legacy_builder_agrees "https://gitea.example.com/user/repo" "main"
           "." "42-50" "").
  - discriminate.
  - discriminate.
  - simpl. lia.
Defined.

(** ** [convertToHTTPS] *)

Section ConvertFacts.

Lemma TrimPrefix_app (p t : string) : TrimPrefix (p ++ t) p = t.
Proof. unfold TrimPrefix. now rewrite HasPrefix_app, drop_app. Qed.

Lemma sshRegex_other (u : string) :
  HasPrefix u "git@" = false -> sshRegex u = None.
Proof. unfold sshRegex. now intros ->. Qed.

Lemma Cut_prefix (s sep : string) :
  HasPrefix s sep = true ->
  Cut s sep = Some ("", drop (String.length sep) s).
Proof. intros H. destruct s; cbn [Cut]; now rewrite H. Qed.

(** What the pattern accepts, and the submatches it yields. *)
Lemma sshRegex_Some (u host path : string) :
  sshRegex u = Some (host, path) ->
  u = "git@" ++ host ++ ":" ++ path
  /\ host <> "" /\ Contains host ":" = false
  /\ path <> "" /\ Contains path newline = false.
Proof.
  unfold sshRegex. destruct (HasPrefix u "git@") eqn:Ep; [|discriminate].
  apply HasPrefix_split in Ep. change (String.length "git@") with 4 in Ep.
  destruct (Cut (drop 4 u) ":") as [[h p]|] eqn:Ec; [|discriminate].
  destruct (isEmpty h) eqn:Eh; [discriminate|].
  destruct (isEmpty p) eqn:Epa; [discriminate|].
  destruct (Contains p newline) eqn:En; [discriminate|].
  intros [= <- <-]. apply isEmpty_false in Eh, Epa.
  pose proof (Cut_before _ _ _ _ Ec) as Hno.
  apply Cut_Some in Ec. rewrite Ec in Ep. auto.
Qed.

Lemma sshRegex_form (host path : string) :
  host <> "" -> Contains host ":" = false ->
  path <> "" -> Contains path newline = false ->
  sshRegex ("git@" ++ host ++ ":" ++ path) = Some (host, path).
Proof.
  intros Hh Hc Hp Hn. unfold sshRegex. rewrite HasPrefix_app.
  change (drop 4 ("git@" ++ host ++ ":" ++ path))
    with (host ++ String ":" path).
  rewrite (Cut_first host path ":" Hc), Hn.
  by_emptiness (host, (path, tt)); try congruence. reflexivity.
Qed.

(** One trailing [.git] is removed, not two. *)
Lemma TrimSuffix_once (url : string) :
  HasSuffix url ".git.git" = false ->
  HasSuffix (TrimSuffix url ".git") ".git" = false.
Proof.
  intros H. destruct (HasSuffix url ".git") eqn:E.
  - destruct (HasSuffix (TrimSuffix url ".git") ".git") eqn:E';
      [|reflexivity].
    apply HasSuffix_iff in E' as [pre E'].
    apply TrimSuffix_has in E. rewrite E' in E.
    assert (Hc : HasSuffix url ".git.git" = true).
    { apply HasSuffix_iff. exists pre. rewrite E.
      now rewrite app_assoc_s. }
    congruence.
  - now rewrite TrimSuffix_hasnot.
Qed.

Lemma Replace_first_colon (s : string) :
  HasSuffix (Replace s ":" "/" 1) ".git" = HasSuffix s ".git".
Proof.
  cbn [Replace]. destruct (Cut s ":") as [[a b]|] eqn:E; [|reflexivity].
  apply Cut_Some in E. subst s.
  change (":" ++ b) with (String ":" b).
  change ("/" ++ b) with (String "/" b).
  now rewrite !HasSuffix_after.
Qed.

(** The three rewrites do not bring a [.git] suffix back. *)
Lemma convert_keeps_no_git (u : string) :
  HasSuffix
    (match sshRegex u with
     | Some (host, path) => "https://" ++ host ++ "/" ++ path
     | None =>
         if HasPrefix u "ssh://" then
           "https://"
             ++ Replace (TrimPrefix (TrimPrefix u "ssh://") "git@") ":" "/" 1
         else if HasPrefix u "git://" then Replace u "git://" "https://" 1
         else u
     end) ".git"
  = HasSuffix u ".git".
Proof.
  destruct (sshRegex u) as [[host path]|] eqn:Er.
  - apply sshRegex_Some in Er as (-> & _).
    change ("/" ++ path) with (String "/" path).
    change (":" ++ path) with (String ":" path).
    rewrite <- !app_assoc_s. now rewrite !HasSuffix_after.
  - destruct (HasPrefix u "ssh://") eqn:Es.
    + unfold TrimPrefix at 2. rewrite Es.
      apply HasPrefix_split in Es. remember (drop _ u) as r eqn:Hr.
      clear Hr. subst u.
      change ("https://" ++ ?x) with ("https:/" ++ String "/" x).
      change ("ssh://" ++ r) with ("ssh:/" ++ String "/" r).
      rewrite !HasSuffix_after, Replace_first_colon by reflexivity.
      unfold TrimPrefix. destruct (HasPrefix r "git@") eqn:Eg;
        [|reflexivity].
      apply HasPrefix_split in Eg. remember (drop _ r) as r' eqn:Hr'.
      clear Hr'. subst r.
      change ("git@" ++ r') with ("git" ++ String "@" r').
      now rewrite HasSuffix_after.
    + destruct (HasPrefix u "git://") eqn:Eg; [|reflexivity].
      cbn [Replace]. rewrite (Cut_prefix u "git://" Eg).
      apply HasPrefix_split in Eg. remember (drop _ u) as r eqn:Hr.
      clear Hr. subst u.
      change ("" ++ "https://" ++ r) with ("https:/" ++ String "/" r).
      change ("git://" ++ r) with ("git:/" ++ String "/" r).
      now rewrite !HasSuffix_after.
Qed.

End ConvertFacts.

(** C7, as stated, fails: a remote given with [http://] is returned with
    that scheme, and of two trailing [.git] one is left. *)
Lemma convertToHTTPS_passes_http :
  convertToHTTPS "http://example.com/user/repo.git"
  = "http://example.com/user/repo"
  /\ HasPrefix (convertToHTTPS "http://example.com/user/repo.git") "https://"
     = false
  /\ convertToHTTPS "https://example.com/user/repo.git.git"
     = "https://example.com/user/repo.git"
  /\ HasSuffix (convertToHTTPS "https://example.com/user/repo.git.git") ".git"
     = true.
Proof. repeat split. Qed.

(** C7, amended. Let [u] be the remote URL without one trailing [.git].
    If [u] is of the form [git@host:path], or starts with [ssh://],
    [git://] or [https://], the output starts with [https://]; any other
    URL is returned as [u].  The output has no [.git] suffix unless the
    input ended with [.git.git].  [git@host:path], [ssh://git@host/path]
    (without a colon after the scheme) and [git://rest] become
    [https://host/path] and [https://rest]. *)
Theorem convertToHTTPS_forms (url host path rest : string) :
  let u := TrimSuffix url ".git" in
  ((exists h p, sshRegex u = Some (h, p))
   \/ HasPrefix u "ssh://" = true
   \/ HasPrefix u "git://" = true
   \/ HasPrefix u "https://" = true ->
   HasPrefix (convertToHTTPS url) "https://" = true)
  /\ (sshRegex u = None ->
      HasPrefix u "ssh://" = false -> HasPrefix u "git://" = false ->
      convertToHTTPS url = u)
  /\ (HasSuffix url ".git.git" = false ->
      HasSuffix (convertToHTTPS url) ".git" = false)
  /\ (u = "git@" ++ host ++ ":" ++ path ->
      host <> "" -> Contains host ":" = false ->
      path <> "" -> Contains path newline = false ->
      convertToHTTPS url = "https://" ++ host ++ "/" ++ path)
  /\ (u = "ssh://git@" ++ host ++ "/" ++ path ->
      Contains (host ++ "/" ++ path) ":" = false ->
      convertToHTTPS url = "https://" ++ host ++ "/" ++ path)
  /\ (u = "git://" ++ rest -> convertToHTTPS url = "https://" ++ rest).
Proof.
  intros u. unfold convertToHTTPS. fold u.
  split; [|split; [|split; [|split; [|split]]]].
  - intros H. destruct (sshRegex u) as [[h p]|] eqn:Er.
    + apply HasPrefix_app.
    + destruct (HasPrefix u "ssh://") eqn:Es; [apply HasPrefix_app|].
      destruct (HasPrefix u "git://") eqn:Eg.
      * cbn [Replace]. rewrite (Cut_prefix u "git://" Eg).
        apply (HasPrefix_app "https://").
      * destruct H as [(h & p & H) | [H | [H | H]]]; congruence.
  - now intros -> -> ->.
  - intros H. rewrite convert_keeps_no_git. now apply TrimSuffix_once.
  - intros -> Hh Hc Hp Hn. now rewrite sshRegex_form.
  - intros -> Hc.
    change ("ssh://git@" ++ host ++ "/" ++ path)
      with ("ssh://" ++ "git@" ++ host ++ "/" ++ path).
    rewrite sshRegex_other by reflexivity.
    rewrite HasPrefix_app, !TrimPrefix_app. cbn [Replace].
    apply Cut_None in Hc. now rewrite Hc.
  - intros ->. rewrite sshRegex_other by reflexivity.
    replace (HasPrefix ("git://" ++ rest) "ssh://") with false by reflexivity.
    rewrite HasPrefix_app. cbn [Replace].
    now rewrite (Cut_prefix _ "git://" (HasPrefix_app "git://" rest)).
Qed.

Lemma convertToHTTPS_forms_witness :
  convertToHTTPS "git@github.com:user/repo.git"
  = "https://github.com/user/repo"
  /\ HasPrefix (convertToHTTPS "ssh://git@github.com/user/repo.git")
       "https://" = true
  /\ HasSuffix (convertToHTTPS "git://github.com/user/repo.git") ".git"
     = false.
Proof.
  split; [|split].
  - destruct (convertToHTTPS_forms "git@github.com:user/repo.git"
                "github.com" "user/repo" "") as (_ & _ & _ & H & _).
    apply H; solve [reflexivity | discriminate].
  - destruct (convertToHTTPS_forms "ssh://git@github.com/user/repo.git"
                "" "" "") as (H & _).
    apply H. right. left. reflexivity.
  - destruct (convertToHTTPS_forms "git://github.com/user/repo.git"
                "" "" "") as (_ & _ & H & _).
    apply H. reflexivity.
Defined.

(** ** Further properties of url.go *)

Section UrlExtras.

Lemma pathJoin_nil : pathJoin [] = "".
Proof. reflexivity. Qed.

Lemma pathJoin_pair (a b : string) :
  pathJoin [a; b]
  = if isEmpty a then b else if isEmpty b then a else a ++ "/" ++ b.
Proof. now destruct a, b. Qed.

Lemma detectProvider_registered (u : string) (p : provider) :
  detectProvider u = Some p -> In p (providers ++ [defaultProvider])%list.
Proof.
  intros H.
  destruct (scanProviders_first defaultProvider u providers
              providers_matchers_set) as (q & Hq & Hcase).
  change (detectProvider u = Some q) in Hq.
  rewrite H in Hq. injection Hq as <-.
  destruct Hcase as [(pre & post & E & _) | [_ ->]].
  - rewrite E. apply in_or_app. left. apply in_or_app. right. now left.
  - apply in_or_app. right. now left.
Qed.

Lemma registered_anchor_empty_start (p : provider) (e : string) :
  In p (providers ++ [defaultProvider])%list -> lineAnchor p "" e = "".
Proof.
  simpl. intros H.
  destruct H as [<- | [<- | [<- | [<- | [<- | [<- | [<- | [<- | []]]]]]]]];
    reflexivity.
Qed.

Lemma Contains_app_r (a b sub : string) :
  Contains b sub = true -> Contains (a ++ b) sub = true.
Proof.
  intros H. induction a as [|c a IH]; cbn [append Contains]; [exact H|].
  rewrite IH. apply orb_true_r.
Qed.

Lemma HasPrefix_app_more (s t p : string) :
  HasPrefix s p = true -> HasPrefix (s ++ t) p = true.
Proof.
  intros H. apply HasPrefix_iff in H as [r ->]. rewrite app_assoc_s.
  apply HasPrefix_app.
Qed.

Lemma Contains_app_l (a b sub : string) :
  Contains a sub = true -> Contains (a ++ b) sub = true.
Proof.
  induction a as [|c a IH]; cbn [append Contains]; intros H.
  - rewrite orb_false_r in H. destruct sub; [|discriminate].
    destruct b; reflexivity.
  - apply orb_true_iff in H as [H | H].
    + change (String c (a ++ b)) with (String c a ++ b).
      now rewrite (HasPrefix_app_more _ b _ H).
    + rewrite (IH H). apply orb_true_r.
Qed.

End UrlExtras.

(** X1. Joining is compositional: joining two lists of segments end to end
    is joining the two joined halves.  Empty segments, and halves that are
    empty altogether, leave no slash. *)
Theorem pathJoin_app (a b : list string) :
  pathJoin (a ++ b)%list = pathJoin [pathJoin a; pathJoin b].
Proof.
  induction a as [|s a IH]; cbn [app].
  - now rewrite pathJoin_nil, pathJoin_skip, pathJoin_last.
  - destruct s as [|c s].
    + now rewrite !pathJoin_skip.
    + rewrite !(pathJoin_cons (String c s)) by discriminate.
      rewrite IH, !pathJoin_pair.
      destruct (pathJoin a) as [|x A], (pathJoin b) as [|y B];
        cbn [isEmpty]; rewrite ?pathJoin_pair; cbn [isEmpty append];
        rewrite ?app_assoc_s; reflexivity.
Qed.

Section SplitFacts.

Lemma Cut_empty (sep : string) : sep <> "" -> Cut "" sep = None.
Proof. intros H. destruct sep; [congruence | reflexivity]. Qed.

(** Once the fuel covers the length of the string, more fuel changes
    nothing. *)
Lemma genSplit_fuel (sep : string) (k k' : nat) (s : string) :
  sep <> "" ->
  String.length s <= k -> String.length s <= k' ->
  genSplit k s sep = genSplit k' s sep.
Proof.
  intros Hsep. revert k' s.
  induction k as [|k IH]; intros k' s Hk Hk'.
  - destruct s; [|simpl in Hk; lia].
    destruct k'; cbn [genSplit]; now rewrite ?(Cut_empty sep Hsep).
  - destruct k' as [|k'].
    + destruct s; [|simpl in Hk'; lia].
      cbn [genSplit]. now rewrite (Cut_empty sep Hsep).
    + cbn [genSplit]. destruct (Cut s sep) as [[a b]|] eqn:E; [|reflexivity].
      apply Cut_Some in E. subst s. rewrite !length_app_s in Hk, Hk'.
      assert (0 < String.length sep) by (destruct sep; simpl; [congruence|lia]).
      f_equal. apply IH; lia.
Qed.

Lemma Split_cons (a rest : string) (c : ascii) :
  Contains a (String c "") = false ->
  Split (a ++ String c rest) (String c "")
  = a :: Split rest (String c "").
Proof.
  intros H. unfold Split. rewrite length_app_s. cbn [String.length].
  rewrite Nat.add_succ_r. cbn [genSplit]. rewrite (Cut_first a rest c H).
  f_equal. apply genSplit_fuel; [discriminate | lia | lia].
Qed.

Lemma Split_none (a sep : string) :
  Contains a sep = false -> Split a sep = [a].
Proof. intros H. unfold Split. now apply genSplit_no_sep. Qed.

End SplitFacts.

(** X2. Splitting the joined URL at its slashes gives back the non-empty
    segments, when no segment holds a slash itself and one at least is not
    empty. *)
Theorem pathJoin_split (parts : list string) :
  Forall (fun p => Contains p "/" = false) parts ->
  pathJoin parts <> "" ->
  Split (pathJoin parts) "/" = filter (fun p => negb (isEmpty p)) parts.
Proof.
  intros Hall Hne. unfold pathJoin, Join in *.
  assert (Hf : Forall (fun p => Contains p "/" = false)
                 (filter (fun p => negb (isEmpty p)) parts)).
  { apply Forall_forall. intros x Hx. apply filter_In in Hx as [Hx _].
    revert x Hx. now apply Forall_forall. }
  assert (Hl : filter (fun p => negb (isEmpty p)) parts <> []).
  { intros E. rewrite E in Hne. now apply Hne. }
  revert Hl Hf. generalize (filter (fun p => negb (isEmpty p)) parts).
  clear. intros l. induction l as [|x l IH]; intros Hl Hf.
  - now contradiction Hl.
  - inversion Hf as [|? ? Hx Hrest]; subst. destruct l as [|y l].
    + cbn [String.concat]. now apply Split_none.
    + change (String.concat "/" (x :: y :: l))
        with (x ++ String "/" (String.concat "/" (y :: l))).
      rewrite (Split_cons _ _ _ Hx). f_equal.
      apply IH; [discriminate | assumption].
Qed.

Lemma pathJoin_split_witness :
  Split (pathJoin ["https:"; ""; "tree"; "main"]) "/" = ["https:"; "tree"; "main"].
Proof.
  apply (pathJoin_split ["https:"; ""; "tree"; "main"]).
  - repeat constructor.
  - discriminate.
Defined.

Lemma pathJoin_base_prefix (base : string) (rest : list string) :
  HasPrefix (pathJoin (base :: rest)) base = true.
Proof.
  destruct base as [|c base]; [apply HasPrefix_empty|].
  rewrite pathJoin_cons by discriminate.
  destruct (isEmpty (pathJoin rest)).
  - rewrite <- (app_empty_r (String c base)) at 1. apply HasPrefix_app.
  - apply HasPrefix_app.
Qed.

(** X3. A line spec without a start line, that is the empty spec or one
    that begins with a dash, adds no anchor for any descriptor: the result
    is the bare commit or tree URL. *)
Theorem line_spec_without_start
    (ctx : repoContext) (rest commitHash : string) :
  buildWebURL ctx ("-" ++ rest) commitHash = buildWebURL ctx "" commitHash
  /\ exists p,
       detectProvider (baseURL ctx) = Some p
       /\ buildWebURL ctx "" commitHash
          = Some (if negb (isEmpty commitHash)
                  then commitURL p (baseURL ctx) commitHash (relPath ctx)
                  else treeURL p (baseURL ctx) (branch ctx) (relPath ctx)).
Proof.
  destruct (scanProviders_first defaultProvider (baseURL ctx) providers
              providers_matchers_set) as (p & Hp & _).
  change (detectProvider (baseURL ctx) = Some p) in Hp.
  pose proof (detectProvider_registered _ _ Hp) as Hin.
  unfold buildWebURL, buildWebURLIn.
  change ("-" ++ rest) with ("" ++ "-" ++ rest).
  rewrite (lineParts_dash "" rest eq_refl).
  change (lineParts "") with ("", "").
  change (detectProviderIn initialGlobals (baseURL ctx))
    with (detectProvider (baseURL ctx)).
  rewrite Hp, !(registered_anchor_empty_start p _ Hin), app_empty_r.
  split; [reflexivity | now exists p].
Qed.

(** X4. A line spec that ends with its only dash is the single-line spec
    before the dash. *)
Theorem line_spec_trailing_dash
    (ctx : repoContext) (n commitHash : string) :
  Contains n "-" = false ->
  buildWebURL ctx (n ++ "-") commitHash = buildWebURL ctx n commitHash.
Proof.
  intros H. unfold buildWebURL, buildWebURLIn.
  change (n ++ "-") with (n ++ "-" ++ "").
  now rewrite (lineParts_dash n "" H), (lineParts_no_dash n H).
Qed.

Lemma line_spec_trailing_dash_witness :
  buildWebURL (ctxOf "https://bitbucket.org/user/repo" "main" "main.go")
    "42-" ""
  = buildWebURL (ctxOf "https://bitbucket.org/user/repo" "main" "main.go")
      "42" "".
Proof.
  apply (line_spec_trailing_dash
           (ctxOf "https://bitbucket.org/user/repo" "main" "main.go") "42" "").
  reflexivity.
Defined.

(** X5. On a base URL that the CodeCommit descriptor is selected for, the
    line spec has no effect on the URL. *)
Theorem codecommit_ignores_line_spec
    (ctx : repoContext) (lineNumber commitHash : string) :
  Contains (baseURL ctx) "console.aws.amazon.com"
    || Contains (baseURL ctx) "codecommit" = true ->
  Contains (baseURL ctx) "github.com" = false ->
  Contains (baseURL ctx) "gitlab" = false ->
  Contains (baseURL ctx) "bitbucket.org" = false ->
  Contains (baseURL ctx) "dev.azure.com" = false ->
  Contains (baseURL ctx) "visualstudio.com" = false ->
  Contains (baseURL ctx) "gitea" = false ->
  Contains (baseURL ctx) "gogs" = false ->
  buildWebURL ctx lineNumber commitHash = buildWebURL ctx "" commitHash.
Proof.
  intros Hcc Hgh Hgl Hbb Haz Hvs Hgt Hgo.
  assert (Hglc : Contains (baseURL ctx) "gitlab.com" = false).
  { destruct (Contains (baseURL ctx) "gitlab.com") eqn:E; [|reflexivity].
    apply (Contains_prefix _ "gitlab" ".com") in E. congruence. }
  unfold buildWebURL, buildWebURLIn, detectProviderIn. simpl scanProviders.
  rewrite Hgh, Hglc, Hgl, Hbb, Haz, Hvs, Hgt, Hgo, Hcc. simpl.
  now destruct (lineParts lineNumber).
Qed.

Lemma codecommit_ignores_line_spec_witness :
  buildWebURL
    (ctxOf "https://console.aws.amazon.com/codesuite/codecommit/repositories/repo"
       "main" "main.go") "42-50" ""
  = buildWebURL
      (ctxOf "https://console.aws.amazon.com/codesuite/codecommit/repositories/repo"
         "main" "main.go") "" "".
Proof.
  apply (codecommit_ignores_line_spec
           (ctxOf "https://console.aws.amazon.com/codesuite/codecommit/repositories/repo"
              "main" "main.go") "42-50" "");
    reflexivity.
Defined.

(** X6. The matcher of the GitLab entry accepts exactly the URLs that hold
    [gitlab]: its test for [gitlab.com] adds nothing. *)
Theorem gitlab_matcher_is_substring_gitlab :
  exists m,
    match_ gitlabProvider = Some m
    /\ forall u, m u = Contains u "gitlab".
Proof.
  eexists. split; [reflexivity|]. intros u. cbv beta.
  destruct (Contains u "gitlab.com") eqn:E; [|reflexivity].
  apply (Contains_prefix _ "gitlab" ".com") in E. now rewrite E.
Qed.

(** X7. Every URL that [buildWebURL] returns begins with the base URL of
    the context, unchanged. *)
Theorem url_begins_with_base
    (ctx : repoContext) (lineNumber commitHash url : string) :
  buildWebURL ctx lineNumber commitHash = Some url ->
  HasPrefix url (baseURL ctx) = true.
Proof.
  unfold buildWebURL, buildWebURLIn.
  destruct (lineParts lineNumber) as [s e].
  change (detectProviderIn initialGlobals (baseURL ctx))
    with (detectProvider (baseURL ctx)).
  destruct (detectProvider (baseURL ctx)) as [p|] eqn:Hp; [|discriminate].
  apply detectProvider_registered in Hp.
  intros [= <-]. apply HasPrefix_app_more.
  generalize (baseURL ctx) (branch ctx) (relPath ctx). intros base br path.
  simpl in Hp.
  destruct Hp as [<- | [<- | [<- | [<- | [<- | [<- | [<- | [<- | []]]]]]]]];
    cbn [commitURL treeURL githubProvider gitlabProvider bitbucketProvider
           azureProvider giteaProvider gogsProvider codecommitProvider
           defaultProvider];
    destruct (negb (isEmpty commitHash)), (isEmpty path);
    try apply pathJoin_base_prefix; try apply HasPrefix_app.
  apply HasPrefix_app_more, pathJoin_base_prefix.
Qed.

Lemma url_begins_with_base_witness :
  HasPrefix
    "https://gitea.example.com/user/repo/src/branch/main/main.go#L42"
    "https://gitea.example.com/user/repo" = true.
Proof.
  apply (url_begins_with_base
           (ctxOf "https://gitea.example.com/user/repo" "main" "main.go")
           "42" "").
  reflexivity.
Defined.

(** ** Further properties of [convertToHTTPS] *)

Lemma convertToHTTPS_fixed (x : string) :
  HasSuffix x ".git" = false ->
  HasPrefix x "https://" = true
  \/ (sshRegex x = None /\ HasPrefix x "ssh://" = false
      /\ HasPrefix x "git://" = false) ->
  convertToHTTPS x = x.
Proof.
  intros Hs H. unfold convertToHTTPS. rewrite (TrimSuffix_hasnot _ _ Hs).
  destruct H as [H | (-> & -> & ->)]; [|reflexivity].
  apply HasPrefix_split in H. rewrite H.
  now rewrite sshRegex_other by reflexivity.
Qed.

(** X8. Converting twice is converting once, for every remote URL that
    does not end with [.git.git]. *)
Theorem convertToHTTPS_idempotent (url : string) :
  HasSuffix url ".git.git" = false ->
  convertToHTTPS (convertToHTTPS url) = convertToHTTPS url.
Proof.
  intros H. apply convertToHTTPS_fixed.
  - unfold convertToHTTPS. rewrite convert_keeps_no_git.
    now apply TrimSuffix_once.
  - unfold convertToHTTPS. set (u := TrimSuffix url ".git").
    destruct (sshRegex u) as [[h p]|] eqn:Er.
    + left. apply HasPrefix_app.
    + destruct (HasPrefix u "ssh://") eqn:Es; [left; apply HasPrefix_app|].
      destruct (HasPrefix u "git://") eqn:Eg; [left | right; auto].
      cbn [Replace]. rewrite (Cut_prefix u "git://" Eg).
      apply (HasPrefix_app "https://").
Qed.

Lemma convertToHTTPS_idempotent_witness :
  convertToHTTPS (convertToHTTPS "git@github.com:user/repo.git")
  = convertToHTTPS "git@github.com:user/repo.git".
Proof.
  apply (convertToHTTPS_idempotent "git@github.com:user/repo.git").
  reflexivity.
Defined.

(** X9. In an [ssh://] remote only the user [git@] is removed, and the
    first colon after the scheme becomes a slash: a port turns into the
    first segment of the path, and another user name stays in the URL. *)
Theorem convertToHTTPS_ssh_scheme (url host rest : string) :
  (TrimSuffix url ".git" = "ssh://git@" ++ host ++ ":" ++ rest ->
   Contains host ":" = false ->
   convertToHTTPS url = "https://" ++ host ++ "/" ++ rest)
  /\ (TrimSuffix url ".git" = "ssh://" ++ rest ->
      HasPrefix rest "git@" = false -> Contains rest ":" = false ->
      convertToHTTPS url = "https://" ++ rest).
Proof.
  unfold convertToHTTPS. split.
  - intros -> Hc.
    change ("ssh://git@" ++ host ++ ":" ++ rest)
      with ("ssh://" ++ "git@" ++ host ++ String ":" rest).
    rewrite sshRegex_other by reflexivity.
    rewrite HasPrefix_app, !TrimPrefix_app. cbn [Replace].
    now rewrite (Cut_first host rest ":" Hc).
  - intros -> Hg Hc.
    rewrite sshRegex_other by reflexivity.
    rewrite HasPrefix_app, TrimPrefix_app. unfold TrimPrefix. rewrite Hg.
    cbn [Replace]. apply Cut_None in Hc. now rewrite Hc.
Qed.

Lemma convertToHTTPS_ssh_scheme_witness :
  convertToHTTPS "ssh://git@example.com:2222/user/repo.git"
  = "https://example.com/2222/user/repo"
  /\ convertToHTTPS "ssh://alice@example.com/user/repo.git"
     = "https://alice@example.com/user/repo".
Proof.
  split.
  - apply (proj1 (convertToHTTPS_ssh_scheme
                    "ssh://git@example.com:2222/user/repo.git"
                    "example.com" "2222/user/repo")); reflexivity.
  - apply (proj2 (convertToHTTPS_ssh_scheme
                    "ssh://alice@example.com/user/repo.git"
                    "" "alice@example.com/user/repo")); reflexivity.
Defined.

(** X10. A remote that begins with [git@] and holds no colon after it is
    not rewritten: it is returned without its [.git]. *)
Theorem convertToHTTPS_git_at_without_colon (url t : string) :
  TrimSuffix url ".git" = "git@" ++ t ->
  Contains t ":" = false ->
  convertToHTTPS url = "git@" ++ t.
Proof.
  intros E Hc. unfold convertToHTTPS. rewrite E.
  unfold sshRegex. rewrite HasPrefix_app.
  change (drop 4 ("git@" ++ t)) with t.
  apply Cut_None in Hc. now rewrite Hc.
Qed.

Lemma convertToHTTPS_git_at_without_colon_witness :
  convertToHTTPS "git@example.com/user/repo.git" = "git@example.com/user/repo".
Proof.
  apply (convertToHTTPS_git_at_without_colon
           "git@example.com/user/repo.git" "example.com/user/repo");
    reflexivity.
Defined.

(** X11. From the remote to the URL: for a remote [git@host:path.git]
    whose host holds [github.com], the context that [getRepoContext]
    returns gives the tree URL [https://host/path/tree/branch] at the
    repository root, and [.../tree/branch/file] for a file. *)
Theorem ssh_remote_to_github_url (host path br rel : string) :
  host <> "" -> Contains host ":" = false ->
  path <> "" -> Contains path newline = false ->
  Contains host "github.com" = true ->
  br <> "" ->
  buildWebURL
    (repoContextOf (("git@" ++ host ++ ":" ++ path) ++ ".git") br ".") "" ""
  = Some ("https://" ++ host ++ "/" ++ path ++ "/tree/" ++ br)
  /\ (rel <> "" -> rel <> "." ->
      buildWebURL
        (repoContextOf (("git@" ++ host ++ ":" ++ path) ++ ".git") br rel)
        "" ""
      = Some ("https://" ++ host ++ "/" ++ path ++ "/tree/" ++ br
                ++ "/" ++ rel)).
Proof.
  intros Hh Hc Hp Hn Hgh Hbr.
  assert (Hconv : convertToHTTPS (("git@" ++ host ++ ":" ++ path) ++ ".git")
                  = "https://" ++ host ++ "/" ++ path).
  { unfold convertToHTTPS. rewrite TrimSuffix_app.
    now rewrite sshRegex_form. }
  assert (Hdet : Contains ("https://" ++ host ++ "/" ++ path) "github.com"
                 = true).
  { apply Contains_app_r. now apply Contains_app_l. }
  unfold repoContextOf. rewrite Hconv.
  remember ("https://" ++ host ++ "/" ++ path) as base eqn:Hbase.
  assert (Hb : base <> "") by (subst base; discriminate).
  unfold buildWebURL, buildWebURLIn, detectProviderIn.
  cbn [baseURL branch relPath]. simpl scanProviders. rewrite Hdet.
  cbn [lineParts isEmpty negb treeURL lineAnchor githubProvider anchorLN].
  rewrite !app_empty_r.
  subst base. destruct br as [|b br]; [congruence|].
  split.
  - cbn. now rewrite !app_assoc_s.
  - intros Hr Hr'. apply String.eqb_neq in Hr'. rewrite Hr'.
    destruct rel as [|r rel]; [congruence|].
    cbn. now rewrite !app_assoc_s.
Qed.

Lemma ssh_remote_to_github_url_witness :
  buildWebURL (repoContextOf "git@github.com:user/repo.git" "main" ".") "" ""
  = Some "https://github.com/user/repo/tree/main".
Proof.
  apply (proj1 (ssh_remote_to_github_url "github.com" "user/repo" "main"
                  "main.go" ltac:(discriminate) eq_refl ltac:(discriminate)
                  eq_refl eq_refl ltac:(discriminate))).
Defined.

(** ** args.go: [parseArgs] *)

Module ArgsTests.

Example parseArgs_cases :
  map parseArgs
    [ []; ["-rupstream"]; ["--line=42"]; ["main.go"; "-l"; "42"; "-c"];
      ["-c"; "main.go"; "--commit"; "abc"]; ["--"; "-notaflag"; "file.go"] ]
  = [ (initialConfig, None);
      (setRemote initialConfig "upstream", None);
      (setLine initialConfig "42", None);
      ({| version := false; remoteName := "origin"; copy := true;
          line := "42"; commit := ""; paths := ["main.go"] |}, None);
      ({| version := false; remoteName := "origin"; copy := true;
          line := ""; commit := "abc"; paths := ["main.go"] |}, None);
      (addPaths initialConfig ["-notaflag"; "file.go"], None) ].
Proof. reflexivity. Qed.

Example parseArgs_errors :
  map (fun args => snd (parseArgs args))
    [ ["--unknown"]; ["-l"]; ["-r"]; ["--commit"] ]
  = [ Some "unknown flag: --unknown"; Some "flag -l requires a value";
      Some "flag -r requires a value";
      Some "flag --commit requires a value" ].
Proof. reflexivity. Qed.

End ArgsTests.

(** Cases on the tests of one turn of the loop, outermost first. *)
Ltac loop_cases H :=
  repeat match type of H with
         | (if ?c then _ else _) = _ => destruct c eqn:?
         | fst (if ?c then _ else _) = _ => destruct c eqn:?
         end.

Section ParseFacts.

(** An argument that does not begin with a dash is a path. *)
Lemma parseLoop_positional (cfg : config) (p : string) (rest : list string) :
  HasPrefix p "-" = false ->
  parseLoop cfg (p :: rest) = parseLoop (addPaths cfg [p]) rest.
Proof.
  intros Hp. cbn [parseLoop].
  assert (Hne : forall t, String.eqb p (String "-" t) = false).
  { intros t. apply String.eqb_neq. intros ->. cbn [HasPrefix] in Hp.
    now rewrite Ascii.eqb_refl, HasPrefix_empty in Hp. }
  assert (Hpre : forall t, HasPrefix p (String "-" t) = false).
  { intros t. destruct (HasPrefix p (String "-" t)) eqn:E; [|reflexivity].
    apply (HasPrefix_app_l p "-" t) in E. congruence. }
  assert (Hat : forall c, attachedTo c p = false).
  { intros c. unfold attachedTo. destruct p as [|a [|b p]];
      try reflexivity. cbn [String.get]. cbn [HasPrefix] in Hp.
    rewrite ?HasPrefix_empty, ?andb_true_r in Hp.
    rewrite (Ascii.eqb_sym a "-"), Hp. now rewrite andb_false_r. }
  now rewrite !Hne, !Hpre, !Hat.
Qed.

(** A prefix of the arguments that parses without error, and holds no
    [--], leaves the rest to be parsed from the configuration it made. *)
Lemma parseLoop_app (a b : list string) :
  forall cfg cfg',
    ~ In "--" a ->
    parseLoop cfg a = (cfg', None) ->
    parseLoop cfg (a ++ b) = parseLoop cfg' b.
Proof.
  remember (List.length a) as n eqn:Hn.
  assert (Hle : List.length a <= n) by lia. clear Hn. revert a Hle.
  induction n as [|n IH]; intros a Hle cfg cfg' Hno H.
  - destruct a; [|simpl in Hle; lia]. simpl in *. congruence.
  - destruct a as [|arg rest]; [simpl in *; congruence|].
    simpl in Hle. cbn [app parseLoop] in *.
    assert (Hrest : ~ In "--" rest) by (intros Hi; apply Hno; now right).
    loop_cases H;
      try (apply IH; [lia | assumption | assumption]);
      try (destruct rest as [|v rest']; [discriminate|];
           cbn [app]; apply IH;
           [simpl in Hle; lia
           | intros Hi; apply Hrest; now right
           | assumption]).
    + exfalso. apply Hno. left. now apply String.eqb_eq.
    + discriminate.
Qed.

End ParseFacts.

Section ParseSteps.

Lemma parseLoop_value_flag (f : string) :
  In f valueFlags ->
  exists set : config -> string -> config,
    (forall cfg v rest,
       parseLoop cfg (f :: v :: rest) = parseLoop (set cfg v) rest)
    /\ (forall cfg, parseLoop cfg [f]
                    = (cfg, Some ("flag " ++ f ++ " requires a value")))
    /\ (forall cfg v more,
          set (addPaths cfg more) v = addPaths (set cfg v) more).
Proof.
  simpl. intros [<- | [<- | [<- | [<- | [<- | []]]]]];
    [exists setRemote | exists setRemote | exists setLine | exists setLine
    | exists setCommit]; repeat split.
Qed.

Lemma parseLoop_switch_flag (f : string) :
  In f switchFlags ->
  exists set : config -> config,
    (forall cfg rest, parseLoop cfg (f :: rest) = parseLoop (set cfg) rest)
    /\ (forall cfg more, set (addPaths cfg more) = addPaths (set cfg) more).
Proof.
  simpl. intros [<- | [<- | [<- | [<- | []]]]];
    [exists setVersion | exists setVersion | exists setCopy | exists setCopy];
    repeat split.
Qed.

End ParseSteps.

(** X12. A value may be attached to its flag: whatever the configuration
    so far and the arguments that follow, the loop parses [--remote=v],
    [--line=v] and [--commit=v] as the flag followed by [v], and so [-rv]
    and [-lv] for a non-empty [v]. *)
Theorem attached_value_spellings
    (cfg : config) (v : string) (rest : list string) :
  parseLoop cfg (("--remote=" ++ v) :: rest)
  = parseLoop cfg ("--remote" :: v :: rest)
  /\ parseLoop cfg (("--line=" ++ v) :: rest)
     = parseLoop cfg ("--line" :: v :: rest)
  /\ parseLoop cfg (("--commit=" ++ v) :: rest)
     = parseLoop cfg ("--commit" :: v :: rest)
  /\ (v <> "" ->
      parseLoop cfg (("-r" ++ v) :: rest) = parseLoop cfg ("-r" :: v :: rest)
      /\ parseLoop cfg (("-l" ++ v) :: rest)
         = parseLoop cfg ("-l" :: v :: rest)).
Proof.
  repeat split; try intros Hv; destruct v; try congruence; reflexivity.
Qed.

Lemma attached_value_spellings_witness :
  parseArgs ["-l42"; "main.go"] = parseArgs ["-l"; "42"; "main.go"].
Proof.
  destruct (attached_value_spellings initialConfig "42" ["main.go"])
    as (_ & _ & _ & H).
  apply H. discriminate.
Defined.

(** X13. A flag that takes a value and stands last, after arguments that
    parse without error, is an error that names the flag; the
    configuration returned is the one made so far. *)
Theorem missing_value_is_an_error
    (a : list string) (cfg : config) (f : string) :
  ~ In "--" a ->
  parseArgs a = (cfg, None) ->
  In f valueFlags ->
  parseArgs (a ++ [f]) = (cfg, Some ("flag " ++ f ++ " requires a value")).
Proof.
  intros Hno Ha Hf. unfold parseArgs in *.
  rewrite (parseLoop_app a [f] _ _ Hno Ha).
  destruct (parseLoop_value_flag f Hf) as (set & _ & H & _). apply H.
Qed.

Lemma missing_value_is_an_error_witness :
  parseArgs ["main.go"; "-c"; "--commit"]
  = (addPaths (setCopy initialConfig) ["main.go"],
     Some "flag --commit requires a value").
Proof.
  apply (missing_value_is_an_error ["main.go"; "-c"] _ "--commit").
  - simpl. intros [H | [H | []]]; discriminate H.
  - reflexivity.
  - simpl. tauto.
Defined.

(** X14. After arguments that parse without error and hold no [--], a
    [--] makes every argument that follows a path as it stands, whatever
    it looks like, and parsing ends without error. *)
Theorem double_dash_ends_flags
    (a rest : list string) (cfg : config) :
  ~ In "--" a ->
  parseArgs a = (cfg, None) ->
  parseArgs (a ++ "--" :: rest) = (addPaths cfg rest, None).
Proof.
  intros Hno Ha. unfold parseArgs in *.
  now rewrite (parseLoop_app a _ _ _ Hno Ha).
Qed.

Lemma double_dash_ends_flags_witness :
  parseArgs ["-c"; "--"; "-notaflag"; "--line=3"]
  = (addPaths (setCopy initialConfig) ["-notaflag"; "--line=3"], None).
Proof.
  apply (double_dash_ends_flags ["-c"]).
  - simpl. intros [H | []]. discriminate H.
  - reflexivity.
Defined.

(** X15. Unless [--] is among the arguments, no argument that begins with
    a dash becomes a path: the paths of the configuration returned, with
    or without an error, all begin otherwise. *)
Theorem dashed_argument_never_a_path
    (args : list string) (cfg : config) (err : option string) :
  ~ In "--" args ->
  parseArgs args = (cfg, err) ->
  Forall (fun p => HasPrefix p "-" = false) (paths cfg).
Proof.
  unfold parseArgs.
  assert (Hinit : Forall (fun p => HasPrefix p "-" = false)
                    (paths initialConfig)) by constructor.
  revert Hinit. generalize initialConfig. intros cfg0 Hinit Hno H.
  remember (List.length args) as n eqn:Hn.
  assert (Hle : List.length args <= n) by lia. clear Hn.
  revert args Hle cfg0 Hinit Hno H.
  induction n as [|n IH]; intros args Hle cfg0 Hinit Hno H.
  - destruct args; [|simpl in Hle; lia]. simpl in H. now injection H as <- _.
  - destruct args as [|arg rest].
    { simpl in H. now injection H as <- _. }
    simpl in Hle. cbn [parseLoop] in H.
    assert (Hrest : ~ In "--" rest) by (intros Hi; apply Hno; now right).
    loop_cases H;
      try solve [eapply IH; [ | | | exact H];
                 [lia | exact Hinit | exact Hrest]];
      try solve [destruct rest as [|v rest'];
                 [now injection H as <- _
                 | eapply IH; [ | | | exact H];
                   [simpl in Hle; lia | exact Hinit
                   | intros Hi; apply Hrest; now right]]].
    + exfalso. apply Hno. left. now apply String.eqb_eq.
    + now injection H as <- _.
    + eapply IH; [ | | | exact H]; [lia | | exact Hrest].
      cbn [paths addPaths].
      apply Forall_app. split; [assumption|]. now repeat constructor.
Qed.

Lemma dashed_argument_never_a_path_witness :
  Forall (fun p => HasPrefix p "-" = false)
    (paths (fst (parseArgs ["main.go"; "-l"; "-5"; "--bogus"]))).
Proof.
  apply (dashed_argument_never_a_path ["main.go"; "-l"; "-5"; "--bogus"]
           _ (snd (parseArgs ["main.go"; "-l"; "-5"; "--bogus"]))).
  - simpl. intros [H | [H | [H | [H | []]]]]; discriminate H.
  - reflexivity.
Defined.

(** X16. The remote stays [origin] unless some argument begins with [-r]
    or [--remote], whatever else the arguments hold and whether or not
    they parse. *)
Theorem remote_defaults_to_origin (args : list string) :
  Forall (fun a => HasPrefix a "-r" = false /\ HasPrefix a "--remote" = false)
    args ->
  remoteName (fst (parseArgs args)) = "origin".
Proof.
  unfold parseArgs. change "origin" with (remoteName initialConfig).
  generalize initialConfig. intros cfg0 Hall.
  remember (List.length args) as n eqn:Hn.
  assert (Hle : List.length args <= n) by lia. clear Hn.
  revert args Hle cfg0 Hall.
  induction n as [|n IH]; intros args Hle cfg0 Hall.
  - destruct args; [reflexivity | simpl in Hle; lia].
  - destruct args as [|arg rest]; [reflexivity|].
    simpl in Hle. inversion Hall as [|? ? [Hr Hlong] Hrest]; subst.
    assert (Hrest' : forall v rest', rest = v :: rest' ->
              Forall (fun a => HasPrefix a "-r" = false
                               /\ HasPrefix a "--remote" = false) rest').
    { intros v rest' ->. now inversion Hrest. }
    assert (E1 : String.eqb arg "-r" = false).
    { apply String.eqb_neq. intros ->. discriminate Hr. }
    assert (E2 : String.eqb arg "--remote" = false).
    { apply String.eqb_neq. intros ->. discriminate Hlong. }
    assert (E3 : HasPrefix arg "--remote=" = false).
    { destruct (HasPrefix arg "--remote=") eqn:E; [|reflexivity].
      apply (HasPrefix_app_l arg "--remote" "=") in E. congruence. }
    assert (E4 : attachedTo "r" arg = false).
    { unfold attachedTo. destruct arg as [|a [|b arg]]; try reflexivity.
      cbn [String.get]. cbn [HasPrefix] in Hr.
      rewrite ?HasPrefix_empty, ?andb_true_r in Hr.
      rewrite (Ascii.eqb_sym a "-"), (Ascii.eqb_sym b "r"), Hr.
      apply andb_false_r. }
    cbn [parseLoop]. rewrite E1, E2, E3, E4. cbn [orb].
    repeat match goal with
           | |- context [if ?c then _ else _] => destruct c
           end;
      try reflexivity;
      try (rewrite IH by (assumption || lia); reflexivity);
      destruct rest as [|v rest']; try reflexivity;
      rewrite IH by (eauto || (simpl in Hle; lia)); reflexivity.
Qed.

Lemma remote_defaults_to_origin_witness :
  remoteName (fst (parseArgs ["main.go"; "-l"; "42"; "--bogus"])) = "origin".
Proof.
  apply (remote_defaults_to_origin ["main.go"; "-l"; "42"; "--bogus"]).
  repeat constructor.
Defined.

(** X17. A path may stand before or after a flag: moving a path across a
    flag with its value, or across a flag without one, does not change
    the result. *)
Theorem path_commutes_with_flag
    (cfg : config) (p f v : string) (rest : list string) :
  HasPrefix p "-" = false ->
  (In f valueFlags ->
   parseLoop cfg (p :: f :: v :: rest) = parseLoop cfg (f :: v :: p :: rest))
  /\ (In f switchFlags ->
      parseLoop cfg (p :: f :: rest) = parseLoop cfg (f :: p :: rest)).
Proof.
  intros Hp. split; intros Hf.
  - destruct (parseLoop_value_flag f Hf) as (set & Hstep & _ & Hcomm).
    now rewrite (parseLoop_positional cfg p _ Hp), !Hstep,
      (parseLoop_positional _ p _ Hp), Hcomm.
  - destruct (parseLoop_switch_flag f Hf) as (set & Hstep & Hcomm).
    now rewrite (parseLoop_positional cfg p _ Hp), !Hstep,
      (parseLoop_positional _ p _ Hp), Hcomm.
Qed.

Lemma path_commutes_with_flag_witness :
  parseArgs ["main.go"; "-l"; "42"; "-c"] = parseArgs ["-l"; "42"; "main.go"; "-c"].
Proof.
  apply (proj1 (path_commutes_with_flag initialConfig "main.go" "-l" "42"
                  ["-c"] eq_refl)).
  simpl. tauto.
Defined.

(** X18. After arguments that parse without error and hold no [--], a
    lone dash, and a dash followed by a letter other than [r] and [l]
    (apart from [-v] and [-c]), is an unknown flag: parsing stops with an
    error that names it, and what follows is not looked at. *)
Theorem unknown_short_flag
    (a rest : list string) (cfg : config) (c : ascii) (t : string) :
  ~ In "--" a ->
  parseArgs a = (cfg, None) ->
  parseArgs (a ++ "-" :: rest) = (cfg, Some "unknown flag: -")
  /\ (c <> "-"%char -> c <> "r"%char -> c <> "l"%char ->
      String c t <> "v" -> String c t <> "c" ->
      parseArgs (a ++ String "-" (String c t) :: rest)
      = (cfg, Some ("unknown flag: " ++ String "-" (String c t)))).
Proof.
  intros Hno Ha. unfold parseArgs in *.
  rewrite !(parseLoop_app a _ _ _ Hno Ha). split; [reflexivity|].
  intros Hd Hr Hl Hv Hc. cbn [parseLoop].
  apply Ascii.eqb_neq in Hd, Hr, Hl. apply String.eqb_neq in Hv, Hc.
  assert (Hd' : Ascii.eqb "-" c = false) by now rewrite Ascii.eqb_sym.
  unfold attachedTo. cbn [String.get String.eqb HasPrefix String.length].
  cbn [String.eqb] in Hv, Hc.
  rewrite ?Ascii.eqb_refl, ?Hd, ?Hd', ?Hr, ?Hl.
  cbn [andb orb]. rewrite ?andb_false_r, Hv, Hc.
  reflexivity.
Qed.

Lemma unknown_short_flag_witness :
  parseArgs ["-c"; "-commit"; "abc1234"]
  = (setCopy initialConfig, Some "unknown flag: -commit").
Proof.
  destruct (unknown_short_flag ["-c"] ["abc1234"] (setCopy initialConfig)
              "c" "ommit") as [_ H].
  - simpl. intros [H | []]. discriminate H.
  - reflexivity.
  - apply H; discriminate.
Defined.

(** ** main.go: [reorderArgs] *)

Section ReorderFacts.

Lemma reorderLoop_step (arg : string) (rest : list string) :
  reorderLoop (arg :: rest) =
  match classify arg with
  | Flag false =>
      let '(flags, positional) := reorderLoop rest in
      (arg :: flags, positional)
  | Flag true =>
      match rest with
      | next :: rest' =>
          if HasPrefix next "-" then
            let '(flags, positional) := reorderLoop rest in
            (arg :: flags, positional)
          else
            let '(flags, positional) := reorderLoop rest' in
            (arg :: next :: flags, positional)
      | [] => ([arg], [])
      end
  | Attached =>
      let '(flags, positional) := reorderLoop rest in
      (("-" ++ String.substring 1 1 arg) :: drop 2 arg :: flags, positional)
  | Positional =>
      let '(flags, positional) := reorderLoop rest in
      (flags, arg :: positional)
  end.
Proof.
  cbn [reorderLoop]. unfold classify.
  repeat match goal with
         | |- context [if ?c then _ else _] =>
             lazymatch c with
             | HasPrefix ?x "-" =>
                 lazymatch x with arg => fail | _ => destruct c end
             | negb _ => fail
             | _ => destruct c
             end
         end;
    cbn [app negb]; try reflexivity;
    destruct rest as [|next rest']; cbn [reorderLoop app]; try reflexivity;
    destruct (HasPrefix next "-"); reflexivity.
Qed.

End ReorderFacts.

Section ReorderInduction.

Variable Q : list string -> list string -> list string -> Prop.

Hypothesis Qnil : Q [] [] [].
Hypothesis Qkeep : forall arg rest F P,
  classify arg = Flag false -> reorderLoop rest = (F, P) -> Q rest F P ->
  Q (arg :: rest) (arg :: F) P.
Hypothesis Qlast : forall arg,
  classify arg = Flag true -> Q [arg] [arg] [].
Hypothesis Qleave : forall arg next rest F P,
  classify arg = Flag true -> HasPrefix next "-" = true ->
  reorderLoop (next :: rest) = (F, P) -> Q (next :: rest) F P ->
  Q (arg :: next :: rest) (arg :: F) P.
Hypothesis Qtake : forall arg next rest F P,
  classify arg = Flag true -> HasPrefix next "-" = false ->
  reorderLoop rest = (F, P) -> Q rest F P ->
  Q (arg :: next :: rest) (arg :: next :: F) P.
Hypothesis Qsplit : forall arg rest F P,
  classify arg = Attached -> reorderLoop rest = (F, P) -> Q rest F P ->
  Q (arg :: rest) (("-" ++ String.substring 1 1 arg) :: drop 2 arg :: F) P.
Hypothesis Qpos : forall arg rest F P,
  classify arg = Positional -> reorderLoop rest = (F, P) -> Q rest F P ->
  Q (arg :: rest) F (arg :: P).

(** Induction along the turns of the loop. *)
Lemma reorderLoop_ind (args F P : list string) :
  reorderLoop args = (F, P) -> Q args F P.
Proof.
  remember (List.length args) as n eqn:Hn.
  assert (Hle : List.length args <= n) by lia. clear Hn.
  revert args Hle F P.
  induction n as [|n IH]; intros args Hle F P H.
  - destruct args; [|simpl in Hle; lia]. injection H as <- <-. exact Qnil.
  - destruct args as [|arg rest]; [injection H as <- <-; exact Qnil|].
    simpl in Hle. rewrite reorderLoop_step in H.
    destruct (classify arg) as [[|]| |] eqn:Ek.
    + destruct rest as [|next rest'].
      * injection H as <- <-. now apply Qlast.
      * destruct (HasPrefix next "-") eqn:En.
        -- destruct (reorderLoop (next :: rest')) as [F' P'] eqn:E.
           injection H as <- <-. apply Qleave; auto. apply IH; [lia | auto].
        -- destruct (reorderLoop rest') as [F' P'] eqn:E.
           injection H as <- <-. apply Qtake; auto.
           apply IH; [simpl in Hle; lia | auto].
    + destruct (reorderLoop rest) as [F' P'] eqn:E.
      injection H as <- <-. apply Qkeep; auto. apply IH; [lia | auto].
    + destruct (reorderLoop rest) as [F' P'] eqn:E.
      injection H as <- <-. apply Qsplit; auto. apply IH; [lia | auto].
    + destruct (reorderLoop rest) as [F' P'] eqn:E.
      injection H as <- <-. apply Qpos; auto. apply IH; [lia | auto].
Qed.

End ReorderInduction.

Section ClassifyFacts.

Lemma HasPrefix_two_dashes (a : string) :
  HasPrefix a "--" = true -> HasPrefix a "-" = true.
Proof. apply (HasPrefix_app_l a "-" "-"). Qed.

Lemma classify_flag_dash (a : string) (b : bool) :
  classify a = Flag b -> HasPrefix a "-" = true.
Proof.
  unfold classify. destruct (HasPrefix a "--") eqn:E.
  - intros _. now apply HasPrefix_two_dashes.
  - destruct (HasPrefix a "-"); [reflexivity|]. discriminate.
Qed.

Lemma classify_attached (a : string) :
  classify a = Attached ->
  HasPrefix a "-" = true
  /\ attachedTo "l" a || attachedTo "r" a = true
  /\ ("-" ++ String.substring 1 1 a = "-l"
      \/ "-" ++ String.substring 1 1 a = "-r").
Proof.
  unfold classify. destruct (HasPrefix a "--") eqn:E.
  { destruct (Contains a "="); [discriminate|].
    destruct (_ || _); discriminate. }
  destruct (HasPrefix a "-") eqn:Ed; [|discriminate].
  destruct (Nat.ltb 1 (String.length a)); [|discriminate]. cbn [andb].
  destruct (_ || _); [discriminate|].
  destruct (String.eqb (String.substring 1 1 a) "l"
            || String.eqb (String.substring 1 1 a) "r") eqn:Es;
    [|discriminate].
  destruct (Nat.ltb 2 (String.length a)) eqn:El; [|discriminate].
  intros _. split; [reflexivity|].
  destruct a as [|x [|y a]]; try discriminate.
  unfold attachedTo. rewrite El. cbn [String.get andb].
  cbn [HasPrefix] in Ed. rewrite andb_true_r in Ed.
  rewrite Ascii.eqb_sym in Ed. rewrite Ed. cbn [andb].
  cbn [String.substring] in *.
  replace (String.substring 0 0 a) with "" in * by now destruct a.
  cbn [String.eqb] in Es. apply orb_true_iff in Es.
  destruct Es as [Es | Es];
    destruct (Ascii.eqb_spec y "l"), (Ascii.eqb_spec y "r");
    subst; try discriminate; auto.
Qed.

Lemma classify_no_dash (a : string) :
  HasPrefix a "-" = false -> classify a = Positional.
Proof.
  intros H. unfold classify. rewrite H.
  destruct (HasPrefix a "--") eqn:E; [|reflexivity].
  apply HasPrefix_two_dashes in E. congruence.
Qed.

Lemma classify_positional (a : string) :
  classify a = Positional -> HasPrefix a "-" = false \/ a = "-".
Proof.
  unfold classify. destruct (HasPrefix a "--") eqn:E.
  { destruct (Contains a "="); [discriminate|].
    destruct (_ || _); discriminate. }
  destruct (HasPrefix a "-") eqn:Ed; [|now left].
  destruct (Nat.ltb 1 (String.length a)) eqn:El.
  { cbn [andb]. destruct (_ || _); [discriminate|].
    destruct (_ || _); [|discriminate].
    destruct (Nat.ltb 2 (String.length a)); discriminate. }
  intros _. right. destruct a as [|x [|y a]]; try discriminate.
  cbn [HasPrefix] in Ed. rewrite andb_true_r in Ed.
  apply Ascii.eqb_eq in Ed. now subst.
Qed.

Lemma classify_short_value_flag (f : string) :
  f = "-l" \/ f = "-r" -> classify f = Flag true.
Proof. now intros [-> | ->]. Qed.

End ClassifyFacts.

Section ReorderShape.

Lemma flagGroups_cons (f : string) (l : list string) :
  HasPrefix f "-" = true -> flagGroups l = true -> flagGroups (f :: l) = true.
Proof.
  intros Hf Hl. cbn [flagGroups]. rewrite Hf. destruct l as [|v l']; auto.
  pose proof Hl as Hv. cbn [flagGroups] in Hv.
  apply andb_true_iff in Hv as [Hv _]. now rewrite Hv.
Qed.

Lemma flagGroups_cons2 (f v : string) (l : list string) :
  HasPrefix f "-" = true -> HasPrefix v "-" = false ->
  flagGroups l = true -> flagGroups (f :: v :: l) = true.
Proof. intros Hf Hv Hl. cbn [flagGroups]. now rewrite Hf, Hv. Qed.

Lemma flagGroups_head (f : string) (l : list string) :
  flagGroups (f :: l) = true -> HasPrefix f "-" = true.
Proof. cbn [flagGroups]. intros H. now apply andb_true_iff in H as [H _]. Qed.

Lemma reorderLoop_shape (args F P : list string) :
  reorderLoop args = (F, P) ->
  flagGroups F = true /\ Forall (fun p => classify p = Positional) P.
Proof.
  apply (reorderLoop_ind
           (fun _ F P =>
              flagGroups F = true
              /\ Forall (fun p => classify p = Positional) P));
    clear.
  - split; [reflexivity | constructor].
  - intros arg rest F P Hk _ [HF HP]. split; [|assumption].
    apply flagGroups_cons; [now apply classify_flag_dash in Hk | assumption].
  - intros arg Hk. split; [|constructor].
    apply flagGroups_cons; [now apply classify_flag_dash in Hk | reflexivity].
  - intros arg next rest F P Hk _ _ [HF HP]. split; [|assumption].
    apply flagGroups_cons; [now apply classify_flag_dash in Hk | assumption].
  - intros arg next rest F P Hk Hn _ [HF HP]. split; [|assumption].
    apply flagGroups_cons2; [now apply classify_flag_dash in Hk | | ]; auto.
  - intros arg rest F P Hk _ [HF HP]. split; [|assumption].
    assert (Hd : HasPrefix ("-" ++ String.substring 1 1 arg) "-" = true)
      by apply (HasPrefix_app "-").
    destruct (HasPrefix (drop 2 arg) "-") eqn:Ex.
    + apply flagGroups_cons; [assumption|]. now apply flagGroups_cons.
    + now apply flagGroups_cons2.
  - intros arg rest F P Hk _ [HF HP]. split; [assumption|].
    now constructor.
Qed.

Lemma reorderLoop_positionals (Q : list string) :
  Forall (fun p => classify p = Positional) Q -> reorderLoop Q = ([], Q).
Proof.
  induction 1 as [|q Q Hq _ IH]; [reflexivity|].
  now rewrite reorderLoop_step, Hq, IH.
Qed.

(** A flag that takes the next argument, put before flags that reorder to
    themselves. *)
Lemma rerun_take (arg : string) (F Q : list string) :
  classify arg = Flag true ->
  flagGroups F = true ->
  Forall (fun p => classify p = Positional) Q ->
  (exists Q1 Q2,
     Q = (Q1 ++ Q2)%list /\ reorderLoop (F ++ Q) = ((F ++ Q1)%list, Q2)) ->
  exists Q1 Q2,
    Q = (Q1 ++ Q2)%list
    /\ reorderLoop (arg :: F ++ Q) = ((arg :: F ++ Q1)%list, Q2).
Proof.
  intros Hk HF HQ (Q1 & Q2 & HQ12 & Hrun).
  rewrite reorderLoop_step, Hk. destruct F as [|f F'].
  - cbn [app] in *. destruct Q as [|q Q'].
    + exists [], []. auto.
    + inversion HQ as [|? ? Hq HQ']; subst.
      destruct (HasPrefix q "-") eqn:Eq.
      * rewrite (reorderLoop_positionals _ HQ). exists [], (q :: Q'). auto.
      * rewrite (reorderLoop_positionals _ HQ'). exists [q], Q'. auto.
  - cbn [app] in *. rewrite (flagGroups_head _ _ HF), Hrun.
    exists Q1, Q2. auto.
Qed.

End ReorderShape.

(** X19. [reorderArgs] puts the flags first: its result is a list of
    flags, each followed or not by one argument that does not begin with
    a dash, and after them arguments none of which is a flag (they do not
    begin with a dash, or are the lone dash). *)
Theorem reorderArgs_flags_first (args : list string) :
  exists F P,
    reorderArgs args = (F ++ P)%list
    /\ flagGroups F = true
    /\ Forall (fun p => HasPrefix p "-" = false \/ p = "-") P.
Proof.
  destruct (reorderLoop args) as [F P] eqn:E. exists F, P.
  unfold reorderArgs. rewrite E. split; [reflexivity|].
  destruct (reorderLoop_shape _ _ _ E) as [HF HP]. split; [assumption|].
  revert HP. apply Forall_impl. intros p. apply classify_positional.
Qed.

(** X20. [reorderArgs] drops and invents nothing: its result holds the
    arguments it was given, a short flag with an attached value counted
    as the flag and the value.  Without such flags the result is a
    permutation of the arguments. *)
Theorem reorderArgs_permutation (args : list string) :
  Permutation (flat_map splitAttached args) (reorderArgs args)
  /\ (Forall (fun a => attachedTo "l" a || attachedTo "r" a = false) args ->
      Permutation args (reorderArgs args)).
Proof.
  assert (Hperm : Permutation (flat_map splitAttached args) (reorderArgs args)).
  { destruct (reorderLoop args) as [F P] eqn:E.
    unfold reorderArgs. rewrite E. revert E.
    apply (reorderLoop_ind
             (fun args F P =>
                Permutation (flat_map splitAttached args) (F ++ P)%list));
      clear.
    - constructor.
    - intros arg rest F P Hk _ IH. cbn [flat_map]. unfold splitAttached at 1.
      rewrite Hk. cbn [app]. now constructor.
    - intros arg Hk. cbn [flat_map]. unfold splitAttached. rewrite Hk.
      apply Permutation_refl.
    - intros arg next rest F P Hk _ _ IH. cbn [flat_map] in *.
      unfold splitAttached at 1. rewrite Hk. cbn [app]. now constructor.
    - intros arg next rest F P Hk Hn _ IH. cbn [flat_map].
      unfold splitAttached at 1 2.
      rewrite Hk, (classify_no_dash next Hn). cbn [app].
      now repeat constructor.
    - intros arg rest F P Hk _ IH. cbn [flat_map]. unfold splitAttached at 1.
      rewrite Hk. cbn [app]. now repeat constructor.
    - intros arg rest F P Hk _ IH. cbn [flat_map]. unfold splitAttached at 1.
      rewrite Hk. cbn [app]. now apply Permutation_cons_app. }
  split; [exact Hperm|].
  intros Hall. replace args with (flat_map splitAttached args) at 1;
    [exact Hperm|].
  clear Hperm. induction Hall as [|a l Ha _ IH]; [reflexivity|].
  cbn [flat_map]. rewrite IH. unfold splitAttached.
  destruct (classify a) eqn:Ek; try reflexivity.
  apply classify_attached in Ek as (_ & Ek & _). congruence.
Qed.

Lemma reorderArgs_permutation_witness :
  Permutation ["file.go"; "-l"; "42"; "-c"]
    (reorderArgs ["file.go"; "-l"; "42"; "-c"]).
Proof.
  apply (proj2 (reorderArgs_permutation ["file.go"; "-l"; "42"; "-c"])).
  repeat constructor.
Defined.

(** X21. Reordering twice is reordering once, provided no value attached
    to [-l] or [-r] begins with a dash.  With such a value the second
    pass can move or split it: [-l-] followed by [-c] is an example. *)
Theorem reorderArgs_idempotent (args : list string) :
  (Forall (fun a => attachedTo "l" a || attachedTo "r" a = true ->
                    HasPrefix (drop 2 a) "-" = false) args ->
   reorderArgs (reorderArgs args) = reorderArgs args)
  /\ reorderArgs (reorderArgs ["-l-"; "-c"]) <> reorderArgs ["-l-"; "-c"].
Proof.
  split; [|discriminate].
  intros Hall. destruct (reorderLoop args) as [F P] eqn:E.
  assert (Hmain : forall Q,
            Forall (fun p => classify p = Positional) Q ->
            exists Q1 Q2,
              Q = (Q1 ++ Q2)%list
              /\ reorderLoop (F ++ Q) = ((F ++ Q1)%list, Q2)).
  { revert Hall. revert E.
    apply (reorderLoop_ind
             (fun args F P =>
                Forall (fun a => attachedTo "l" a || attachedTo "r" a = true ->
                                 HasPrefix (drop 2 a) "-" = false) args ->
                forall Q,
                  Forall (fun p => classify p = Positional) Q ->
                  exists Q1 Q2,
                    Q = (Q1 ++ Q2)%list
                    /\ reorderLoop (F ++ Q) = ((F ++ Q1)%list, Q2)));
      clear.
    - intros _ Q HQ. exists [], Q. split; [reflexivity|].
      now apply reorderLoop_positionals.
    - intros arg rest F P Hk _ IH Hall Q HQ.
      inversion Hall as [|? ? _ Hrest]; subst.
      destruct (IH Hrest Q HQ) as (Q1 & Q2 & HQ12 & Hrun).
      exists Q1, Q2. split; [assumption|].
      cbn [app]. now rewrite reorderLoop_step, Hk, Hrun.
    - intros arg Hk _ Q HQ.
      apply (rerun_take arg [] Q Hk eq_refl HQ).
      exists [], Q. split; [reflexivity|].
      now apply reorderLoop_positionals.
    - intros arg next rest F P Hk Hn E IH Hall Q HQ.
      inversion Hall as [|? ? _ Hrest]; subst.
      apply (rerun_take arg F Q Hk); auto.
      now destruct (reorderLoop_shape _ _ _ E).
    - intros arg next rest F P Hk Hn _ IH Hall Q HQ.
      inversion Hall as [|? ? _ Hrest]; subst.
      inversion Hrest as [|? ? _ Hrest']; subst.
      destruct (IH Hrest' Q HQ) as (Q1 & Q2 & HQ12 & Hrun).
      exists Q1, Q2. split; [assumption|].
      cbn [app]. now rewrite reorderLoop_step, Hk, Hn, Hrun.
    - intros arg rest F P Hk _ IH Hall Q HQ.
      inversion Hall as [|? ? Harg Hrest]; subst.
      destruct (IH Hrest Q HQ) as (Q1 & Q2 & HQ12 & Hrun).
      exists Q1, Q2. split; [assumption|].
      destruct (classify_attached arg Hk) as (_ & Hat & Hflag).
      cbn [app].
      now rewrite reorderLoop_step, (classify_short_value_flag _ Hflag),
        (Harg Hat), Hrun.
    - intros arg rest F P Hk _ IH Hall Q HQ.
      inversion Hall as [|? ? _ Hrest]; subst. now apply IH. }
  destruct (reorderLoop_shape _ _ _ E) as [_ HP].
  destruct (Hmain P HP) as (Q1 & Q2 & HQ12 & Hrun).
  unfold reorderArgs. rewrite E. cbv iota beta. rewrite Hrun.
  now rewrite HQ12, app_assoc.
Qed.

Lemma reorderArgs_idempotent_witness :
  reorderArgs (reorderArgs ["file.go"; "-l42"; "-x"; "y"; "--line"; "7"])
  = reorderArgs ["file.go"; "-l42"; "-x"; "y"; "--line"; "7"].
Proof.
  apply (proj1 (reorderArgs_idempotent
                  ["file.go"; "-l42"; "-x"; "y"; "--line"; "7"])).
  repeat constructor; intros; reflexivity || discriminate.
Defined.
